(** * The onboarding dashboard screen (frontend/app/dashboard/page.tsx)

    A shallow embedding of the [Dashboard] component: its three pieces of
    React state, the handlers wired in its JSX, the asynchronous
    [handleConfirm] workflow with its two awaited [fetch] calls and the final
    [router.replace], and an event loop in which user gestures, the
    settlement of pending promises and the end of the dialog's leave
    transition interleave. *)

From Stdlib Require Import String Ascii List Bool Arith Lia.
From Stdlib Require Import Decimal DecimalString.
Import ListNotations.
Local Open Scope string_scope.
Local Open Scope list_scope.

(** ** Calendar dates and their string form *)

Module Calendar.

(** A [CalendarDate] of the Gregorian calendar, common era: year, month, day,
    no time of day and no time zone. *)
Record CalendarDate := mkDate { year : nat; month : nat; day : nat }.

(** [String(n)] for a non-negative integer. *)
Definition String_of_nat (n : nat) : string :=
  NilEmpty.string_of_uint (Nat.to_uint n).

(** [s.padStart(w, '0')]. *)
Definition padStart0 (w : nat) (s : string) : string :=
  String.concat EmptyString (repeat "0" (w - String.length s)) ++ s.

(** [CalendarDate.prototype.toString] of the date library, for a date of
    the common era: [YYYY-MM-DD], each field left-padded with zeros. *)
Definition toString (d : CalendarDate) : string :=
  padStart0 4 (String_of_nat (year d)) ++ "-" ++
  padStart0 2 (String_of_nat (month d)) ++ "-" ++
  padStart0 2 (String_of_nat (day d)).

End Calendar.
Import Calendar.

(** ** The fragment of JSON.stringify the screen uses *)

Module JSON.

(** The values a property of the stringified object literals can hold. *)
Inductive JSValue :=
| JUndefined
| JNull
| JString (s : string).

Definition dquote : ascii := ascii_of_nat 34.
Definition backslash : ascii := ascii_of_nat 92.

Definition hexdigit (n : nat) : ascii :=
  if Nat.ltb n 10 then ascii_of_nat (48 + n) else ascii_of_nat (87 + n).

(** One code unit of QuoteJSONString. *)
Definition escape_char (c : ascii) : string :=
  let n := nat_of_ascii c in
  if Nat.eqb n 34 then String backslash (String dquote EmptyString)
  else if Nat.eqb n 92 then String backslash (String backslash EmptyString)
  else if Nat.eqb n 8 then String backslash "b"
  else if Nat.eqb n 9 then String backslash "t"
  else if Nat.eqb n 10 then String backslash "n"
  else if Nat.eqb n 12 then String backslash "f"
  else if Nat.eqb n 13 then String backslash "r"
  else if Nat.ltb n 32 then
    String backslash ("u00" ++ String (hexdigit (n / 16)) (String (hexdigit (n mod 16)) EmptyString))
  else String c EmptyString.

Fixpoint escape (s : string) : string :=
  match s with
  | EmptyString => EmptyString
  | String c s' => escape_char c ++ escape s'
  end.

Definition quote (s : string) : string :=
  String dquote (escape s ++ String dquote EmptyString).

(** SerializeJSONProperty: [undefined] has no serialization. *)
Definition serialize (v : JSValue) : option string :=
  match v with
  | JUndefined => None
  | JNull => Some "null"
  | JString s => Some (quote s)
  end.

(** The members of SerializeJSONObject: a property whose value serializes to
    nothing is left out. *)
Fixpoint members (props : list (string * JSValue)) : list string :=
  match props with
  | [] => []
  | (k, v) :: rest =>
      match serialize v with
      | Some sv => (quote k ++ ":" ++ sv)%string :: members rest
      | None => members rest
      end
  end.

(** [JSON.stringify(o)] for an object literal [o] with the given properties. *)
Definition stringify (props : list (string * JSValue)) : string :=
  "{" ++ String.concat "," (members props) ++ "}".

End JSON.
Import JSON.

(** ** React state of the component *)

(** [showModal] is the spec's ModalVisible, [startDate] its ConfirmedDate and
    [selectedDate] its PickedDate. *)
Record State := mkState {
  showModal : bool;
  startDate : option CalendarDate;
  selectedDate : option CalendarDate
}.

(** The three [useState] initial values. *)
Definition initialState : State :=
  {| showModal := true; startDate := None; selectedDate := None |}.

(** A call of one of the three state setters. *)
Inductive Update :=
| SetShowModal (b : bool)
| SetStartDate (v : option CalendarDate)
| SetSelectedDate (v : option CalendarDate).

Definition apply_update (u : Update) (s : State) : State :=
  match u with
  | SetShowModal b =>
      {| showModal := b; startDate := startDate s; selectedDate := selectedDate s |}
  | SetStartDate v =>
      {| showModal := showModal s; startDate := v; selectedDate := selectedDate s |}
  | SetSelectedDate v =>
      {| showModal := showModal s; startDate := startDate s; selectedDate := v |}
  end.

(** ** Requests, responses and the router *)

Record Request := mkRequest {
  url : string;
  method : string;
  headers : list (string * string);
  body : string
}.

(** What a [fetch] promise resolves with; only the HTTP status is modelled. *)
Record Response := mkResponse { status : nat }.

(** How a [fetch] promise settles: it resolves with a response of any status,
    or rejects (network failure). *)
Inductive Outcome :=
| Resolved (r : Response)
| Rejected.

Inductive NavMethod := Push | Replace.

(** ** Handler bodies as programs *)

(** The effects a handler performs, in continuation form. [AwaitFetch r k]
    is [await fetch(r)]: the request is issued, the handler is suspended, and
    [k] runs with the response once the promise resolves; when the promise
    rejects the [await] throws, and as no handler has a [try], the invocation
    ends there. *)
Inductive Async (A : Type) : Type :=
| Ret (a : A)
| Set_ (u : Update) (k : Async A)
| AwaitFetch (r : Request) (k : Response -> Async A)
| Router (m : NavMethod) (href : string) (k : Async A).
Arguments Ret {A} a.
Arguments Set_ {A} u k.
Arguments AwaitFetch {A} r k.
Arguments Router {A} m href k.

Fixpoint bind {A B : Type} (m : Async A) (f : A -> Async B) : Async B :=
  match m with
  | Ret a => f a
  | Set_ u k => Set_ u (bind k f)
  | AwaitFetch r k => AwaitFetch r (fun resp => bind (k resp) f)
  | Router n href k => Router n href (bind k f)
  end.

Notation "x <- m ;; k" := (bind m (fun x => k))
  (at level 61, m at next level, right associativity).
Notation "m ;; k" := (bind m (fun _ => k))
  (at level 61, right associativity).

Definition setShowModal (b : bool) : Async unit := Set_ (SetShowModal b) (Ret tt).
Definition setStartDate (v : option CalendarDate) : Async unit := Set_ (SetStartDate v) (Ret tt).
Definition setSelectedDate (v : option CalendarDate) : Async unit := Set_ (SetSelectedDate v) (Ret tt).
Definition await_fetch (r : Request) : Async Response := AwaitFetch r (fun resp => Ret resp).
Definition router_replace (href : string) : Async unit := Router Replace href (Ret tt).

(** [selectedDate?.toString()]: [undefined] when no date is selected. *)
Definition optional_toString (v : option CalendarDate) : JSValue :=
  match v with
  | Some d => JString (toString d)
  | None => JUndefined
  end.

Definition json_headers : list (string * string) :=
  [("Content-Type", "application/json")].

(** The first [fetch] of [handleConfirm]. *)
Definition saveStartDateRequest (selected : option CalendarDate) : Request :=
  {| url := "/api/save-start-date";
     method := "POST";
     headers := json_headers;
     body := stringify [("start_date", optional_toString selected)] |}.

(** The second [fetch] of [handleConfirm]. *)
Definition fetchEmailsRequest : Request :=
  {| url := "/api/fetch-emails";
     method := "POST";
     headers := json_headers;
     body := stringify [("user_id", JString "your_user_id_here")] |}.

(** [handleConfirm], closed over the [selectedDate] of the render that
    created it. *)
Definition handleConfirm (selected : option CalendarDate) : Async unit :=
  setStartDate selected ;;
  setShowModal false ;;
  _ <- await_fetch (saveStartDateRequest selected) ;;
  _ <- await_fetch fetchEmailsRequest ;;
  router_replace "/processing".

(** ** The rendered view *)

(** The [Dialog] subtree: heading, date picker and Confirm button, with the
    three handlers the JSX wires. *)
Record DialogView := mkDialog {
  onClose : Async unit;
  heading : string;
  pickerValue : option CalendarDate;
  onChange : option CalendarDate -> Async unit;
  buttonLabel : string;
  onClick : Async unit
}.

(** The dashboard fragment: the title and the summary paragraph. *)
Record DashboardView := mkDashboard {
  title : string;
  summary : string
}.

(** The element tree [Dashboard] returns: the [Transition] with its [show]
    property and the dialog it wraps, and the dashboard fragment. *)
Record View := mkView {
  show : bool;
  dialog : DialogView;
  dashboard : option DashboardView
}.

(** The body of [Dashboard] after the hooks. The dialog is handed to the
    [Transition] on every render, with [show={showModal}]; only the fragment
    is switched by [!showModal] itself. *)
Definition render (s : State) : View :=
  {| show := showModal s;
     dialog :=
       {| onClose := setShowModal false;
          heading := "Please enter the start date of your current job search:";
          pickerValue := selectedDate s;
          onChange := fun date => setSelectedDate date;
          buttonLabel := "Confirm";
          onClick := handleConfirm (selectedDate s) |};
     dashboard :=
       if negb (showModal s) then
         Some {| title := "Dashboard";
                 summary := "Your job search start date: " ++
                            match startDate s with
                            | Some d => toString d
                            | None => "Not set"
                            end |}
       else None |}.

(** ** The event loop *)

(** What the user can do on the screen. The date picker hands its callback a
    date, or null when the field is cleared. *)
Inductive Gesture :=
| Change (date : option CalendarDate)
| Confirm
| Close.

(** The handler a gesture reaches in the dialog of a rendered view. *)
Definition handler (v : View) (g : Gesture) : Async unit :=
  match g with
  | Change date => onChange (dialog v) date
  | Confirm => onClick (dialog v)
  | Close => onClose (dialog v)
  end.

(** What is recorded of a session, oldest first. The number is that of the
    handler invocation the event belongs to. *)
Inductive Event :=
| Gestured (id : nat) (g : Gesture)
| Updated (id : nat) (u : Update)
| Issued (id : nat) (r : Request)
| Settled (id : nat) (r : Request) (o : Outcome)
| Navigated (id : nat) (m : NavMethod) (href : string)
| Unhandled (id : nat).

(** A handler invocation suspended at an [await]. *)
Record Task := mkTask {
  t_id : nat;
  t_req : Request;
  t_k : Response -> Async unit
}.

(** [mounted] is the one bit of the [Transition]'s own state the screen
    depends on: whether the dialog it wraps is in the document. It is while
    [show] is true, and it stays so through the leave transition that starts
    when [show] turns false. *)
Record Config := mkConfig {
  ui : State;
  mounted : bool;
  pending : list Task;
  log : list Event;
  next : nat
}.

Definition init : Config :=
  {| ui := initialState; mounted := true; pending := []; log := []; next := 0 |}.

(** Runs invocation [id] until it returns or reaches its next [await]. *)
Fixpoint exec (id : nat) (p : Async unit) (s : State) : State * list Event * option Task :=
  match p with
  | Ret _ => (s, [], None)
  | Set_ u k =>
      let '(s', evs, t) := exec id k (apply_update u s) in
      (s', Updated id u :: evs, t)
  | AwaitFetch r k =>
      (s, [Issued id r], Some {| t_id := id; t_req := r; t_k := k |})
  | Router m href k =>
      let '(s', evs, t) := exec id k s in
      (s', Navigated id m href :: evs, t)
  end.

Definition opt_to_list {A : Type} (o : option A) : list A :=
  match o with
  | Some a => [a]
  | None => []
  end.

(** Removes the task of invocation [id] from the pending ones. *)
Fixpoint take (id : nat) (ts : list Task) : option (Task * list Task) :=
  match ts with
  | [] => None
  | t :: rest =>
      if Nat.eqb (t_id t) id then Some (t, rest)
      else match take id rest with
           | Some (t', rest') => Some (t', t :: rest')
           | None => None
           end
  end.

Inductive Label :=
| UI (g : Gesture)
| Net (id : nat) (o : Outcome)
| LeaveEnd.

(** One turn of the event loop. A gesture needs the dialog in the document and
    runs the handler the current render wires to it; a settlement resumes, or
    ends, the invocation that awaits it; the end of the leave transition takes
    the dialog out of the document. *)
Definition step (c : Config) (l : Label) : option Config :=
  match l with
  | UI g =>
      if mounted c then
        let '(s', evs, t) := exec (next c) (handler (render (ui c)) g) (ui c) in
        Some {| ui := s';
                mounted := mounted c || show (render s');
                pending := pending c ++ opt_to_list t;
                log := log c ++ Gestured (next c) g :: evs;
                next := S (next c) |}
      else None
  | Net id o =>
      match take id (pending c) with
      | Some (t, rest) =>
          match o with
          | Resolved resp =>
              let '(s', evs, t') := exec id (t_k t resp) (ui c) in
              Some {| ui := s';
                      mounted := mounted c || show (render s');
                      pending := rest ++ opt_to_list t';
                      log := log c ++ Settled id (t_req t) o :: evs;
                      next := next c |}
          | Rejected =>
              Some {| ui := ui c;
                      mounted := mounted c;
                      pending := rest;
                      log := log c ++ [Settled id (t_req t) o; Unhandled id];
                      next := next c |}
          end
      | None => None
      end
  | LeaveEnd =>
      if mounted c && negb (show (render (ui c))) then
        Some {| ui := ui c;
                mounted := false;
                pending := pending c;
                log := log c;
                next := next c |}
      else None
  end.

Fixpoint run (c : Config) (ls : list Label) : option Config :=
  match ls with
  | [] => Some c
  | l :: ls' =>
      match step c l with
      | Some c' => run c' ls'
      | None => None
      end
  end.

(** The configuration a list of turns reaches from the initial one (the
    initial one itself when the list is not a session). *)
Definition after (ls : list Label) : Config :=
  match run init ls with
  | Some c => c
  | None => init
  end.

(** ** Sessions with a single closing gesture, phase by phase *)

(** Where a session of changes followed by one close or confirm gesture
    stands, and where one invocation of a handler stands. [AwaitingInput] is
    the initial phase, the three phases with a pending or resolved call refine
    the workflow's Confirming and Completed, and the other three are the ways
    to end without navigation. *)
Inductive Phase :=
| AwaitingInput
| Dismissed
| AwaitingSave
| AwaitingEmails (r1 : Response)
| Completed (r1 r2 : Response)
| SaveRejected
| EmailsRejected (r1 : Response).

(** The value the picker last handed to its callback, if any. *)
Definition last_change (ds : list (option CalendarDate)) : option CalendarDate :=
  last ds None.

Fixpoint changes_log (n : nat) (ds : list (option CalendarDate)) : list Event :=
  match ds with
  | [] => []
  | d :: ds' => Gestured n (Change d) :: Updated n (SetSelectedDate d) :: changes_log (S n) ds'
  end.

(** The rest of [handleConfirm] after its first and after its second [await]. *)
Definition afterSave : Response -> Async unit :=
  fun _ => _ <- await_fetch fetchEmailsRequest ;; router_replace "/processing".
Definition afterEmails : Response -> Async unit :=
  fun _ => router_replace "/processing".

Definition confirm_log (n : nat) (sel : option CalendarDate) : list Event :=
  [Gestured n Confirm; Updated n (SetStartDate sel); Updated n (SetShowModal false);
   Issued n (saveStartDateRequest sel)].

Definition phase_log (ph : Phase) (n : nat) (sel : option CalendarDate) : list Event :=
  match ph with
  | AwaitingInput => []
  | Dismissed => [Gestured n Close; Updated n (SetShowModal false)]
  | AwaitingSave => confirm_log n sel
  | AwaitingEmails r1 =>
      confirm_log n sel ++
      [Settled n (saveStartDateRequest sel) (Resolved r1); Issued n fetchEmailsRequest]
  | Completed r1 r2 =>
      confirm_log n sel ++
      [Settled n (saveStartDateRequest sel) (Resolved r1); Issued n fetchEmailsRequest;
       Settled n fetchEmailsRequest (Resolved r2); Navigated n Replace "/processing"]
  | SaveRejected =>
      confirm_log n sel ++
      [Settled n (saveStartDateRequest sel) Rejected; Unhandled n]
  | EmailsRejected r1 =>
      confirm_log n sel ++
      [Settled n (saveStartDateRequest sel) (Resolved r1); Issued n fetchEmailsRequest;
       Settled n fetchEmailsRequest Rejected; Unhandled n]
  end.

Definition phase_pending (ph : Phase) (n : nat) (sel : option CalendarDate) : list Task :=
  match ph with
  | AwaitingSave => [{| t_id := n; t_req := saveStartDateRequest sel; t_k := afterSave |}]
  | AwaitingEmails _ => [{| t_id := n; t_req := fetchEmailsRequest; t_k := afterEmails |}]
  | _ => []
  end.

Definition phase_ui (ph : Phase) (sel : option CalendarDate) : State :=
  match ph with
  | AwaitingInput => {| showModal := true; startDate := None; selectedDate := sel |}
  | Dismissed => {| showModal := false; startDate := None; selectedDate := sel |}
  | _ => {| showModal := false; startDate := sel; selectedDate := sel |}
  end.

Definition phase_next (ph : Phase) (n : nat) : nat :=
  match ph with
  | AwaitingInput => n
  | _ => S n
  end.

(** The configuration of a session that saw the changes [ds] and stands in
    phase [ph]. *)
Definition config_of (ds : list (option CalendarDate)) (ph : Phase) : Config :=
  {| ui := phase_ui ph (last_change ds);
     mounted := true;
     pending := phase_pending ph (length ds) (last_change ds);
     log := changes_log 0 ds ++ phase_log ph (length ds) (last_change ds);
     next := phase_next ph (length ds) |}.

(** The turns that lead to a phase once the changes are made. *)
Definition phase_labels (ph : Phase) (n : nat) : list Label :=
  match ph with
  | AwaitingInput => []
  | Dismissed => [UI Close]
  | AwaitingSave => [UI Confirm]
  | AwaitingEmails r1 => [UI Confirm; Net n (Resolved r1)]
  | Completed r1 r2 => [UI Confirm; Net n (Resolved r1); Net n (Resolved r2)]
  | SaveRejected => [UI Confirm; Net n Rejected]
  | EmailsRejected r1 => [UI Confirm; Net n (Resolved r1); Net n Rejected]
  end.

Definition session (ds : list (option CalendarDate)) (ph : Phase) : list Label :=
  map (fun d => UI (Change d)) ds ++ phase_labels ph (length ds).

(** ** Observations on the log *)

(** The call of invocation [id] to the endpoint [u] is issued. *)
Definition issued_to (u : string) (id : nat) (e : Event) : bool :=
  match e with
  | Issued i r => Nat.eqb i id && String.eqb (url r) u
  | _ => false
  end.

(** The call of invocation [id] to the endpoint [u] has settled. *)
Definition settled_from (u : string) (id : nat) (e : Event) : bool :=
  match e with
  | Settled i r _ => Nat.eqb i id && String.eqb (url r) u
  | _ => false
  end.

(** The call of invocation [id] to the endpoint [u] has resolved. *)
Definition resolved_from (u : string) (id : nat) (e : Event) : bool :=
  match e with
  | Settled i r (Resolved _) => Nat.eqb i id && String.eqb (url r) u
  | _ => false
  end.

Definition navigated_by (id : nat) (e : Event) : bool :=
  match e with
  | Navigated i _ _ => Nat.eqb i id
  | _ => false
  end.

Definition is_navigation (e : Event) : bool :=
  match e with
  | Navigated _ _ _ => true
  | _ => false
  end.

Definition sets_showModal (e : Event) : bool :=
  match e with
  | Updated _ (SetShowModal _) => true
  | _ => false
  end.

(** Invocation [id] sets [showModal] to false. *)
Definition hides_modal (id : nat) (e : Event) : bool :=
  match e with
  | Updated i (SetShowModal false) => Nat.eqb i id
  | _ => false
  end.

Definition issued_by (id : nat) (e : Event) : bool :=
  match e with
  | Issued i _ => Nat.eqb i id
  | _ => false
  end.

(** Every event of the list that satisfies [Q] comes after one that
    satisfies [P] ([seen]: one has come already). *)
Fixpoint guarded (P Q : Event -> bool) (seen : bool) (l : list Event) : bool :=
  match l with
  | [] => true
  | e :: l' => implb (Q e) seen && guarded P Q (seen || P e) l'
  end.

(** A confirm gesture of any invocation. *)
Definition confirm_gesture (e : Event) : bool :=
  match e with
  | Gestured _ Confirm => true
  | _ => false
  end.

(** A call to the endpoint [u] is issued, resp. has resolved, whatever the
    invocation. *)
Definition issue_of (u : string) (e : Event) : bool :=
  match e with
  | Issued _ r => String.eqb (url r) u
  | _ => false
  end.

Definition resolution_of (u : string) (e : Event) : bool :=
  match e with
  | Settled _ r (Resolved _) => String.eqb (url r) u
  | _ => false
  end.

(** A label and an event with the responses of their resolved calls blanked
    out. *)
Definition blank : Response := {| status := 0 |}.

Definition forget_label (l : Label) : Label :=
  match l with
  | Net id (Resolved _) => Net id (Resolved blank)
  | _ => l
  end.

Definition forget_event (e : Event) : Event :=
  match e with
  | Settled id r (Resolved _) => Settled id r (Resolved blank)
  | _ => e
  end.

(** The browser history, current entry first: [push] adds an entry,
    [replace] overwrites the current one. *)
Definition navigate (m : NavMethod) (href : string) (h : list string) : list string :=
  match m with
  | Push => href :: h
  | Replace => href :: tl h
  end.

Definition history_after (h : list string) (l : list Event) : list string :=
  fold_left (fun h e => match e with
                        | Navigated _ m href => navigate m href h
                        | _ => h
                        end) l h.

(** A string between double quotes, as it stands in a JSON text. *)
Definition quoted (s : string) : string :=
  String dquote (s ++ String dquote EmptyString).

(** A string none of whose characters QuoteJSONString escapes. *)
Fixpoint plain (s : string) : Prop :=
  match s with
  | EmptyString => True
  | String c s' => escape_char c = String c EmptyString /\ plain s'
  end.

(** ** Invocations *)

(** The invocation an event belongs to. *)
Definition event_id (e : Event) : nat :=
  match e with
  | Gestured id _ | Updated id _ | Issued id _ | Settled id _ _
  | Navigated id _ _ | Unhandled id => id
  end.

(** The events, and the pending tasks, of one invocation. *)
Definition events_of (id : nat) (l : list Event) : list Event :=
  filter (fun e => Nat.eqb (event_id e) id) l.

Definition tasks_of (id : nat) (ts : list Task) : list Task :=
  filter (fun t => Nat.eqb (t_id t) id) ts.

(** The two shapes a suspended invocation of [handleConfirm] has. *)
Definition wf_task (t : Task) : Prop :=
  (exists sel, t_req t = saveStartDateRequest sel /\ t_k t = afterSave) \/
  (t_req t = fetchEmailsRequest /\ t_k t = afterEmails).

(** What one invocation has done so far: a change of the picked date, or a
    phase of a close or a confirm ([AwaitingInput]: nothing yet). *)
Inductive Invocation :=
| IChange (d : option CalendarDate)
| IPhase (sel : option CalendarDate) (ph : Phase).

Definition inv_log (id : nat) (st : Invocation) : list Event :=
  match st with
  | IChange d => [Gestured id (Change d); Updated id (SetSelectedDate d)]
  | IPhase sel ph => phase_log ph id sel
  end.

Definition inv_pending (id : nat) (st : Invocation) : list Task :=
  match st with
  | IChange _ => []
  | IPhase sel ph => phase_pending ph id sel
  end.

(** The values the picker hands to its callback in a list of turns. *)
Fixpoint changes_of (ls : list Label) : list (option CalendarDate) :=
  match ls with
  | [] => []
  | UI (Change d) :: ls' => d :: changes_of ls'
  | _ :: ls' => changes_of ls'
  end.

(** Every navigation of the list is a replace to the processing route. *)
Definition replaces_only (l : list Event) : Prop :=
  forall i m h, In (Navigated i m h) l -> m = Replace /\ h = "/processing".

(** ** The turns of the loop, case by case *)

(** The pending tasks are suspended invocations of [handleConfirm]. *)
Definition tasks_wf (c : Config) : Prop := Forall wf_task (pending c).

(** What a turn does to a configuration whose tasks are so. *)
Inductive Turn (c : Config) : Label -> Config -> Prop :=
| T_change d :
    mounted c = true ->
    Turn c (UI (Change d))
      {| ui := {| showModal := showModal (ui c); startDate := startDate (ui c);
                  selectedDate := d |};
         mounted := true;
         pending := pending c;
         log := log c ++ [Gestured (next c) (Change d); Updated (next c) (SetSelectedDate d)];
         next := S (next c) |}
| T_close :
    mounted c = true ->
    Turn c (UI Close)
      {| ui := {| showModal := false; startDate := startDate (ui c);
                  selectedDate := selectedDate (ui c) |};
         mounted := true;
         pending := pending c;
         log := log c ++ [Gestured (next c) Close; Updated (next c) (SetShowModal false)];
         next := S (next c) |}
| T_confirm :
    mounted c = true ->
    Turn c (UI Confirm)
      {| ui := {| showModal := false; startDate := selectedDate (ui c);
                  selectedDate := selectedDate (ui c) |};
         mounted := true;
         pending := pending c ++
                    [{| t_id := next c; t_req := saveStartDateRequest (selectedDate (ui c));
                        t_k := afterSave |}];
         log := log c ++ confirm_log (next c) (selectedDate (ui c));
         next := S (next c) |}
| T_save_resolved i sel r rest :
    take i (pending c) =
      Some ({| t_id := i; t_req := saveStartDateRequest sel; t_k := afterSave |}, rest) ->
    Turn c (Net i (Resolved r))
      {| ui := ui c;
         mounted := mounted c || showModal (ui c);
         pending := rest ++ [{| t_id := i; t_req := fetchEmailsRequest; t_k := afterEmails |}];
         log := log c ++ [Settled i (saveStartDateRequest sel) (Resolved r);
                          Issued i fetchEmailsRequest];
         next := next c |}
| T_emails_resolved i r rest :
    take i (pending c) =
      Some ({| t_id := i; t_req := fetchEmailsRequest; t_k := afterEmails |}, rest) ->
    Turn c (Net i (Resolved r))
      {| ui := ui c;
         mounted := mounted c || showModal (ui c);
         pending := rest;
         log := log c ++ [Settled i fetchEmailsRequest (Resolved r);
                          Navigated i Replace "/processing"];
         next := next c |}
| T_rejected i t rest :
    take i (pending c) = Some (t, rest) ->
    wf_task t ->
    Turn c (Net i Rejected)
      {| ui := ui c;
         mounted := mounted c;
         pending := rest;
         log := log c ++ [Settled i (t_req t) Rejected; Unhandled i];
         next := next c |}
| T_leave :
    mounted c = true ->
    showModal (ui c) = false ->
    Turn c LeaveEnd
      {| ui := ui c; mounted := false; pending := pending c; log := log c; next := next c |}.

(** ** What every session keeps *)

(** Invocation [id] has done what some [Invocation] says, and nothing if it
    has not started. *)
Definition invocation_ok (id : nat) (c : Config) : Prop :=
  exists st,
    events_of id (log c) = inv_log id st /\
    tasks_of id (pending c) = inv_pending id st /\
    (next c <= id -> st = IPhase None AwaitingInput).

Record Inv (c : Config) : Prop := mkInv {
  inv_wf : tasks_wf c;
  inv_each : forall id, invocation_ok id c;
  inv_mounted : mounted c = false -> showModal (ui c) = false;
  inv_flag : showModal (ui c) = negb (existsb sets_showModal (log c));
  inv_start : forall d, startDate (ui c) = Some d ->
                        exists i, In (Updated i (SetStartDate (Some d))) (log c)
}.

(** Two configurations that differ only in the responses their logs record. *)
Definition same_but_responses (c c' : Config) : Prop :=
  ui c' = ui c /\ mounted c' = mounted c /\ pending c' = pending c /\ next c' = next c /\
  map forget_event (log c') = map forget_event (log c).

(** * Properties *)

Example scenario_B :
  option_map (fun c => (ui c, log c))
    (run init [UI (Change (Some (mkDate 2024 3 15))); UI Confirm]) =
  Some ({| showModal := false;
           startDate := Some (mkDate 2024 3 15);
           selectedDate := Some (mkDate 2024 3 15) |},
        [Gestured 0 (Change (Some (mkDate 2024 3 15)));
         Updated 0 (SetSelectedDate (Some (mkDate 2024 3 15)));
         Gestured 1 Confirm;
         Updated 1 (SetStartDate (Some (mkDate 2024 3 15)));
         Updated 1 (SetShowModal false);
         Issued 1 (saveStartDateRequest (Some (mkDate 2024 3 15)))]).
Proof. reflexivity. Qed.

(** A second confirm gesture while the dialog is leaving starts a second
    invocation. *)
Example second_confirm_in_leave_phase :
  option_map (fun c => (length (pending c), next c))
    (run init [UI Confirm; UI Confirm]) = Some (2, 2) /\
  run init [UI Confirm; LeaveEnd; UI Confirm] = None.
Proof. split; reflexivity. Qed.

(** ** Basic facts about [run] and the change log *)

Lemma run_app (ls1 ls2 : list Label) (c : Config) :
  run c (ls1 ++ ls2) =
  match run c ls1 with
  | Some c' => run c' ls2
  | None => None
  end.
Proof.
  revert c. induction ls1 as [|l ls1 IH]; intros c; simpl.
  - reflexivity.
  - destruct (step c l); [apply IH | reflexivity].
Qed.

Lemma changes_log_snoc (ds : list (option CalendarDate)) (d : option CalendarDate) (n : nat) :
  changes_log n (ds ++ [d]) =
  changes_log n ds ++
  [Gestured (n + length ds) (Change d); Updated (n + length ds) (SetSelectedDate d)].
Proof.
  revert n. induction ds as [|x ds IH]; intros n; simpl.
  - rewrite Nat.add_0_r. reflexivity.
  - rewrite IH. replace (n + S (length ds)) with (S n + length ds) by lia. reflexivity.
Qed.

Lemma last_change_snoc (ds : list (option CalendarDate)) (d : option CalendarDate) :
  last_change (ds ++ [d]) = d.
Proof. unfold last_change. apply last_last. Qed.

(** A change made while the dialog is open moves a session of phase
    [AwaitingInput] to the session with one more change. *)
Lemma step_change (ds : list (option CalendarDate)) (d : option CalendarDate) :
  step (config_of ds AwaitingInput) (UI (Change d)) =
  Some (config_of (ds ++ [d]) AwaitingInput).
Proof.
  unfold config_of. simpl.
  rewrite changes_log_snoc, last_change_snoc, !app_nil_r, length_app. simpl.
  rewrite Nat.add_1_r. reflexivity.
Qed.

Lemma run_changes (ds0 ds : list (option CalendarDate)) :
  run (config_of ds0 AwaitingInput) (map (fun d => UI (Change d)) ds) =
  Some (config_of (ds0 ++ ds) AwaitingInput).
Proof.
  revert ds0. induction ds as [|d ds IH]; intros ds0.
  - rewrite app_nil_r. reflexivity.
  - cbn [map run]. rewrite step_change, IH, <- app_assoc. reflexivity.
Qed.

Lemma run_phase (ds : list (option CalendarDate)) (ph : Phase) :
  run (config_of ds AwaitingInput) (phase_labels ph (length ds)) = Some (config_of ds ph).
Proof.
  unfold config_of.
  destruct ph; cbn -[saveStartDateRequest fetchEmailsRequest changes_log];
    rewrite ?Nat.eqb_refl; cbn -[saveStartDateRequest fetchEmailsRequest changes_log];
    rewrite ?Nat.eqb_refl; cbn -[saveStartDateRequest fetchEmailsRequest changes_log];
    rewrite ?app_nil_r, <- ?app_assoc; reflexivity.
Qed.

(** Every pair of a change list and a phase is a session of the screen. *)
Lemma run_session (ds : list (option CalendarDate)) (ph : Phase) :
  run init (session ds ph) = Some (config_of ds ph).
Proof.
  unfold session. rewrite run_app.
  change init with (config_of [] AwaitingInput).
  rewrite run_changes. simpl app. apply run_phase.
Qed.

(** ** Reading the log of a session *)

Lemma in_changes_log (e : Event) (n : nat) (ds : list (option CalendarDate)) :
  In e (changes_log n ds) ->
  exists i d, e = Gestured i (Change d) \/ e = Updated i (SetSelectedDate d).
Proof.
  revert n. induction ds as [|d ds IH]; intros n H; simpl in H.
  - contradiction.
  - destruct H as [<-|[<-|H]]; eauto.
Qed.

Lemma in_log_config_of (e : Event) (ds : list (option CalendarDate)) (ph : Phase) :
  In e (log (config_of ds ph)) ->
  (exists i d, e = Gestured i (Change d) \/ e = Updated i (SetSelectedDate d)) \/
  In e (phase_log ph (length ds) (last_change ds)).
Proof.
  unfold config_of; cbn [log]. intros H.
  apply in_app_or in H as [H|H]; [left; eapply in_changes_log; eassumption | right; exact H].
Qed.

Lemma save_neq_emails (sel : option CalendarDate) :
  saveStartDateRequest sel <> fetchEmailsRequest.
Proof. intros H. apply (f_equal url) in H. discriminate H. Qed.

(** Closes a goal with an equation between events whose requests go to
    different endpoints. *)
Ltac absurd_request H :=
  exfalso; injection H; intros;
  match goal with
  | E : saveStartDateRequest _ = fetchEmailsRequest |- _ => exact (save_neq_emails _ E)
  | E : fetchEmailsRequest = saveStartDateRequest _ |- _ => exact (save_neq_emails _ (eq_sym E))
  end.

(** Splits a membership in the log of a session into the events it can be. *)
Ltac in_log H :=
  apply in_log_config_of in H;
  destruct H as [(?i & ?d & [H|H])|H];
  [ try discriminate H | try discriminate H
  | cbn -[saveStartDateRequest fetchEmailsRequest] in H;
    repeat (destruct H as [H|H]; [try discriminate H; try (absurd_request H)|]);
    try contradiction H ].

Lemma in_phase_log (e : Event) (ds : list (option CalendarDate)) (ph : Phase) :
  In e (phase_log ph (length ds) (last_change ds)) -> In e (log (config_of ds ph)).
Proof. intros H. unfold config_of; cbn [log]. apply in_or_app. right. exact H. Qed.

Lemma guarded_sound (P Q : Event -> bool) (l : list Event) (seen : bool) :
  guarded P Q seen l = true ->
  forall l1 e l2, l = l1 ++ e :: l2 -> Q e = true ->
  seen = true \/ exists e', In e' l1 /\ P e' = true.
Proof.
  revert seen. induction l as [|x l IH]; intros seen G l1 e l2 E HQ.
  - destruct l1; discriminate.
  - simpl in G. apply andb_true_iff in G as [G1 G2].
    destruct l1 as [|y l1]; simpl in E; injection E as -> ->.
    + rewrite HQ in G1. destruct seen; [left; reflexivity | discriminate].
    + destruct (IH _ G2 l1 e l2 eq_refl HQ) as [S|(e' & I & HP)].
      * apply orb_true_iff in S as [S|S]; [left; exact S|].
        right. exists y. split; [left; reflexivity | exact S].
      * right. exists e'. split; [right; exact I | exact HP].
Qed.

(** Proves a membership in the log of a session from its phase. *)
Ltac log_has :=
  apply in_phase_log; cbn -[saveStartDateRequest fetchEmailsRequest]; auto 12.

Lemma escape_plain (s : string) : plain s -> escape s = s.
Proof.
  induction s as [|c s IH]; simpl.
  - reflexivity.
  - intros [E P]. rewrite E, (IH P). reflexivity.
Qed.

Lemma plain_app (s t : string) : plain s -> plain t -> plain (s ++ t)%string.
Proof.
  induction s as [|c s IH]; simpl.
  - intros _ P. exact P.
  - intros [E P] Q. split; [exact E | exact (IH P Q)].
Qed.

Lemma plain_string_of_uint (u : uint) : plain (NilEmpty.string_of_uint u).
Proof. induction u; simpl; auto. Qed.

Lemma plain_padStart0 (w : nat) (s : string) : plain s -> plain (padStart0 w s).
Proof.
  intros P. unfold padStart0. apply plain_app; [|exact P].
  induction (w - String.length s) as [|k IH]; simpl.
  - exact I.
  - destruct k; simpl in *; auto.
Qed.

Lemma plain_toString (d : CalendarDate) : plain (toString d).
Proof.
  unfold toString, String_of_nat.
  repeat (apply plain_app; try apply plain_padStart0; try apply plain_string_of_uint);
    simpl; auto.
Qed.

Lemma quote_toString (d : CalendarDate) : quote (toString d) = quoted (toString d).
Proof. unfold quote, quoted. rewrite (escape_plain _ (plain_toString d)). reflexivity. Qed.

(** ** Pending tasks *)

Lemma take_spec (i : nat) (ts : list Task) (t : Task) (rest : list Task) :
  take i ts = Some (t, rest) ->
  t_id t = i /\ In t ts /\
  (forall P : Task -> Prop, Forall P ts -> P t /\ Forall P rest) /\
  (forall id, tasks_of id ts =
              if Nat.eqb i id then t :: tasks_of id rest else tasks_of id rest).
Proof.
  revert t rest. induction ts as [|t0 ts IH]; intros t rest H; simpl in H.
  - discriminate H.
  - destruct (Nat.eqb (t_id t0) i) eqn:E.
    + injection H as <- <-. apply Nat.eqb_eq in E.
      split; [exact E|]. split; [left; reflexivity|]. split.
      * intros P F. inversion F; subst. split; assumption.
      * intros id. subst i. unfold tasks_of; simpl.
        destruct (Nat.eqb (t_id t0) id); reflexivity.
    + destruct (take i ts) as [[t' rest']|]; [|discriminate H].
      injection H as <- <-.
      destruct (IH _ _ eq_refl) as (I & M & F & T).
      split; [exact I|]. split; [right; exact M|]. split.
      * intros P FP. inversion FP; subst. destruct (F P H2) as [Pt Pr].
        split; [exact Pt | constructor; assumption].
      * intros id. unfold tasks_of in *; simpl. rewrite T.
        destruct (Nat.eqb_spec i id) as [->|N].
        -- rewrite E. reflexivity.
        -- destruct (Nat.eqb (t_id t0) id); reflexivity.
Qed.

Lemma take_of_tasks (i : nat) (ts : list Task) (t : Task) (l : list Task) :
  tasks_of i ts = t :: l -> exists rest, take i ts = Some (t, rest).
Proof.
  induction ts as [|t0 ts IH]; unfold tasks_of; simpl; intros H.
  - discriminate H.
  - destruct (Nat.eqb (t_id t0) i).
    + injection H as -> _. eauto.
    + destruct (IH H) as (rest & ->). eauto.
Qed.

Lemma tasks_of_nil (ts : list Task) : (forall id, tasks_of id ts = []) -> ts = [].
Proof.
  destruct ts as [|t ts]; [reflexivity|]. intros H.
  specialize (H (t_id t)). unfold tasks_of in H; simpl in H.
  rewrite Nat.eqb_refl in H. discriminate H.
Qed.

Lemma in_tasks_of (t : Task) (ts : list Task) : In t ts -> In t (tasks_of (t_id t) ts).
Proof. intros H. apply filter_In. split; [exact H | apply Nat.eqb_refl]. Qed.

Lemma in_events_of (e : Event) (l : list Event) : In e l -> In e (events_of (event_id e) l).
Proof. intros H. apply filter_In. split; [exact H | apply Nat.eqb_refl]. Qed.

Lemma events_of_in (e : Event) (id : nat) (l : list Event) : In e (events_of id l) -> In e l.
Proof. intros H. apply filter_In in H. apply H. Qed.

Lemma step_turn (c c' : Config) (l : Label) :
  tasks_wf c -> step c l = Some c' -> Turn c l c'.
Proof.
  intros W S. destruct l as [g|i o|]; cbn [step] in S.
  - destruct (mounted c) eqn:M; [|discriminate S].
    destruct g as [d| |]; cbn in S; rewrite ?app_nil_r in S; injection S as <-.
    + apply (T_change c d M).
    + apply (T_confirm c M).
    + apply (T_close c M).
  - destruct (take i (pending c)) as [[t rest]|] eqn:T; [|discriminate S].
    destruct (take_spec _ _ _ _ T) as (I & _ & F & _).
    destruct (F _ W) as [Wt _].
    destruct o as [r|].
    + destruct t as [ti tr tk]. cbn in I. subst ti.
      destruct Wt as [(sel & Er & Ek)|[Er Ek]]; cbn in Er, Ek; subst tr tk;
        cbn in S; rewrite ?app_nil_r in S; injection S as <-.
      * apply (T_save_resolved c i sel r rest T).
      * apply (T_emails_resolved c i r rest T).
    + injection S as <-. apply (T_rejected c i t rest T Wt).
  - destruct (mounted c) eqn:M; [|discriminate S].
    cbn in S. destruct (showModal (ui c)) eqn:E; [discriminate S|].
    cbn in S. injection S as <-. apply (T_leave c M E).
Qed.

Lemma turn_step (c c' : Config) (l : Label) : Turn c l c' -> step c l = Some c'.
Proof.
  intros T. destruct T; cbn [step];
    rewrite ?H; cbn; rewrite ?H0, ?app_nil_r; reflexivity.
Qed.

Lemma turn_wf (c c' : Config) (l : Label) : tasks_wf c -> Turn c l c' -> tasks_wf c'.
Proof.
  unfold tasks_wf. intros W T. destruct T; cbn [pending]; try exact W.
  - apply Forall_app. split; [exact W|]. constructor; [|constructor].
    left. exists (selectedDate (ui c)). split; reflexivity.
  - destruct (take_spec _ _ _ _ H) as (_ & _ & F & _). destruct (F _ W) as [_ Wr].
    apply Forall_app. split; [exact Wr|]. constructor; [|constructor].
    right. split; reflexivity.
  - destruct (take_spec _ _ _ _ H) as (_ & _ & F & _). apply (F _ W).
  - destruct (take_spec _ _ _ _ H) as (_ & _ & F & _). apply (F _ W).
Qed.

(** ** The invariant holds in every session *)

Lemma events_of_app (id : nat) (l l' : list Event) :
  events_of id (l ++ l') = events_of id l ++ events_of id l'.
Proof. apply filter_app. Qed.

Lemma tasks_of_app (id : nat) (ts ts' : list Task) :
  tasks_of id (ts ++ ts') = tasks_of id ts ++ tasks_of id ts'.
Proof. apply filter_app. Qed.

Lemma cons_eq_inv {A : Type} (a b : A) (l l' : list A) :
  a :: l = b :: l' -> a = b /\ l = l'.
Proof. intros H. injection H as -> ->. split; reflexivity. Qed.

(** Decides whether the invocation [i] of a turn is the invocation [id] under
    study. *)
Ltac same_invocation i id :=
  let E := fresh "E" in
  destruct (Nat.eqb i id) eqn:E;
  [ apply Nat.eqb_eq in E; first [subst i | subst id | idtac]; rewrite ?Nat.eqb_refl
  | pose proof (proj1 (Nat.eqb_neq _ _) E) ].

Lemma turn_invocation (id : nat) (c c' : Config) (l : Label) :
  invocation_ok id c -> Turn c l c' -> invocation_ok id c'.
Proof.
  intros (st & L & P & N) T.
  destruct T; unfold invocation_ok; cbn [log pending next];
    rewrite ?events_of_app, ?tasks_of_app, ?L.
  - (* change *)
    unfold events_of at 1, confirm_log; cbn [filter event_id]. same_invocation (next c) id.
    + rewrite (N (le_n _)) in L, P |- *. exists (IChange d). cbn. repeat split; [exact P | lia].
    + exists st. rewrite app_nil_r. repeat split; [exact P | intros; apply N; lia].
  - (* close *)
    unfold events_of at 1, confirm_log; cbn [filter event_id]. same_invocation (next c) id.
    + rewrite (N (le_n _)) in L, P |- *. exists (IPhase None Dismissed). cbn.
      repeat split; [exact P | lia].
    + exists st. rewrite app_nil_r. repeat split; [exact P | intros; apply N; lia].
  - (* confirm *)
    unfold events_of at 1, tasks_of at 2, confirm_log; cbn [filter event_id t_id].
    same_invocation (next c) id.
    + rewrite (N (le_n _)) in L, P |- *. rewrite P.
      exists (IPhase (selectedDate (ui c)) AwaitingSave). cbn. repeat split; lia.
    + exists st. rewrite !app_nil_r. repeat split; [exact P | intros; apply N; lia].
  - (* the persist-date call resolves *)
    destruct (take_spec _ _ _ _ H) as (_ & _ & _ & TK). specialize (TK id).
    unfold events_of at 1, tasks_of at 2; cbn [filter event_id t_id].
    same_invocation i id.
    + rewrite P in TK.
      destruct st as [d|sel' ph]; [discriminate TK|].
      destruct ph; try discriminate TK; cbn [inv_pending phase_pending] in TK;
        apply cons_eq_inv in TK as [ER TR]; apply (f_equal t_req) in ER; cbn [t_req] in ER;
        try (exfalso; exact (save_neq_emails _ (eq_sym ER))).
      exists (IPhase sel' (AwaitingEmails r)). rewrite <- TR, <- ER.
      cbn [inv_log inv_pending phase_log phase_pending app].
      rewrite <- ?app_assoc. repeat split. intros LE. discriminate (N LE).
    + exists st. rewrite !app_nil_r, <- TK. repeat split; [exact P | exact N].
  - (* the fetch-emails call resolves *)
    destruct (take_spec _ _ _ _ H) as (_ & _ & _ & TK). specialize (TK id).
    unfold events_of at 1; cbn [filter event_id].
    same_invocation i id.
    + rewrite P in TK.
      destruct st as [d|sel' ph]; [discriminate TK|].
      destruct ph; try discriminate TK; cbn [inv_pending phase_pending] in TK;
        apply cons_eq_inv in TK as [ER TR]; apply (f_equal t_req) in ER; cbn [t_req] in ER;
        try (exfalso; exact (save_neq_emails _ ER)).
      exists (IPhase sel' (Completed r1 r)). rewrite <- TR.
      cbn [inv_log inv_pending phase_log phase_pending app].
      rewrite <- ?app_assoc. repeat split. intros LE. discriminate (N LE).
    + exists st. rewrite !app_nil_r, <- TK. repeat split; [exact P | exact N].
  - (* a call rejects *)
    destruct (take_spec _ _ _ _ H) as (_ & _ & _ & TK). specialize (TK id).
    unfold events_of at 1; cbn [filter event_id].
    same_invocation i id.
    + rewrite P in TK.
      destruct st as [d|sel' ph]; [discriminate TK|].
      destruct ph; try discriminate TK; cbn [inv_pending phase_pending] in TK;
        apply cons_eq_inv in TK as [ET TR]; subst t; cbn [t_req].
      * exists (IPhase sel' SaveRejected). rewrite <- TR. cbn [inv_log inv_pending phase_log phase_pending app].
        rewrite <- ?app_assoc. repeat split. intros LE. discriminate (N LE).
      * exists (IPhase sel' (EmailsRejected r1)). rewrite <- TR. cbn [inv_log inv_pending phase_log phase_pending app].
        rewrite <- ?app_assoc. repeat split. intros LE. discriminate (N LE).
    + exists st. rewrite !app_nil_r, <- TK. repeat split; [exact P | exact N].
  - (* the leave transition ends *)
    exists st. rewrite <- L. repeat split; [exact P | exact N].
Qed.

Lemma turn_inv (c c' : Config) (l : Label) : Inv c -> Turn c l c' -> Inv c'.
Proof.
  intros [W E M F S] T. split.
  - exact (turn_wf _ _ _ W T).
  - intros id. exact (turn_invocation id _ _ _ (E id) T).
  - destruct T; cbn [mounted ui showModal]; try discriminate; try exact M.
    + intros X. apply orb_false_iff in X. apply X.
    + intros X. apply orb_false_iff in X. apply X.
    + intros _. assumption.
  - destruct T; cbn [log ui showModal]; unfold confirm_log;
      rewrite ?existsb_app; cbn [existsb sets_showModal];
      rewrite ?orb_false_r, ?orb_true_r; try exact F; reflexivity.
  - intros d. destruct T; cbn [log ui startDate]; intros X;
      try exact (S d X);
      try (destruct (S d X) as (j & J); exists j; apply in_or_app; left; exact J).
    exists (next c). rewrite X. apply in_or_app. right. unfold confirm_log. simpl. auto.
Qed.

Lemma inv_init : Inv init.
Proof.
  split.
  - constructor.
  - intros id. exists (IPhase None AwaitingInput). repeat split.
  - discriminate.
  - reflexivity.
  - discriminate.
Qed.

(** Induction over the sessions of the screen. *)
Lemma run_inv_ind (P : Config -> Prop) :
  (forall c l c', Inv c -> P c -> Turn c l c' -> P c') ->
  forall ls c0 c, Inv c0 -> P c0 -> run c0 ls = Some c -> Inv c /\ P c.
Proof.
  intros Step ls. induction ls as [|l ls IH]; intros c0 c I0 P0 R; simpl in R.
  - injection R as <-. split; assumption.
  - destruct (step c0 l) as [c1|] eqn:S; [|discriminate R].
    pose proof (step_turn _ _ _ (inv_wf _ I0) S) as T.
    apply (IH c1 c (turn_inv _ _ _ I0 T) (Step _ _ _ I0 P0 T) R).
Qed.

Lemma run_inv (ls : list Label) (c0 c : Config) : Inv c0 -> run c0 ls = Some c -> Inv c.
Proof.
  intros I0 R. apply (run_inv_ind (fun _ => True) (fun _ _ _ _ _ _ => I) ls c0 c I0 I R).
Qed.

Lemma reachable_inv (ls : list Label) (c : Config) : run init ls = Some c -> Inv c.
Proof. apply run_inv, inv_init. Qed.

(** ** Reading the log of an invocation *)

Lemma in_inv_log (e : Event) (c : Config) (id : nat) (st : Invocation) :
  In e (log c) ->
  event_id e = id ->
  events_of id (log c) = inv_log id st ->
  In e (inv_log id st).
Proof. intros H <- L. rewrite <- L. apply in_events_of. exact H. Qed.

Lemma inv_log_in (e : Event) (id : nat) (c : Config) (st : Invocation) :
  events_of id (log c) = inv_log id st ->
  In e (inv_log id st) -> In e (log c).
Proof. intros L H. rewrite <- L in H. apply (events_of_in _ _ _ H). Qed.

(** Turns a membership in the log into the cases the invocation's state
    allows; [L] is the equation of that invocation. *)
Ltac in_inv H L :=
  eapply in_inv_log in H; [| reflexivity | exact L];
  cbn -[saveStartDateRequest fetchEmailsRequest] in H;
  repeat (destruct H as [H|H]; [try discriminate H; try (absurd_request H)|]);
  try contradiction H.

(** Proves a membership in the log from the invocation's state. *)
Ltac inv_has L :=
  apply (inv_log_in _ _ _ _ L); cbn -[saveStartDateRequest fetchEmailsRequest]; auto 12.

Lemma filter_events_of (P : Event -> bool) (id : nat) (l : list Event) :
  (forall e, event_id e <> id -> P e = false) ->
  filter P l = filter P (events_of id l).
Proof.
  intros N. induction l as [|e l IH]; [reflexivity|].
  unfold events_of in *; simpl.
  destruct (Nat.eqb_spec (event_id e) id) as [E|E]; simpl.
  - rewrite IH. reflexivity.
  - rewrite (N e E). exact IH.
Qed.

Lemma guarded_events_of (P Q : Event -> bool) (id : nat) (seen : bool) (l : list Event) :
  (forall e, event_id e <> id -> P e = false /\ Q e = false) ->
  guarded P Q seen l = guarded P Q seen (events_of id l).
Proof.
  intros N. revert seen. induction l as [|e l IH]; intros seen; [reflexivity|].
  unfold events_of in *; simpl.
  destruct (Nat.eqb_spec (event_id e) id) as [E|E]; simpl.
  - rewrite IH. reflexivity.
  - destruct (N e E) as [-> ->]. simpl. rewrite orb_false_r. apply IH.
Qed.

(** Discharges the side condition of the two lemmas above for the
    observations that name their invocation. *)
Ltac other_invocation :=
  let e := fresh "e" in let N := fresh "N" in
  intros e N; destruct e as [? ?|? [[]| |]|? ?|? ? []|? ? ?|?]; cbn in N |- *;
  rewrite ?(proj2 (Nat.eqb_neq _ _) N); try split; reflexivity.

(** ** Invocations that have ended, and invocations that go on *)

(** An invocation that has started and has no pending call gets no further
    event. *)
Lemma ended_stays (id : nat) (ls : list Label) (c0 c : Config) :
  Inv c0 ->
  tasks_of id (pending c0) = [] ->
  id < next c0 ->
  run c0 ls = Some c ->
  events_of id (log c) = events_of id (log c0) /\
  tasks_of id (pending c) = [] /\
  id < next c.
Proof.
  intros I0 P0 N0 R.
  apply (run_inv_ind
           (fun c => events_of id (log c) = events_of id (log c0) /\
                     tasks_of id (pending c) = [] /\ id < next c)) with (ls := ls) (c0 := c0);
    auto.
  clear. intros c l c' _ (L & P & N) T.
  destruct T; cbn [log pending next]; unfold confirm_log;
    rewrite ?events_of_app, ?tasks_of_app, ?L, ?P;
    try (destruct (take_spec _ _ _ _ H) as (_ & _ & _ & TK); specialize (TK id);
         rewrite P in TK);
    unfold events_of at 2, tasks_of; cbn [filter event_id t_id];
    try (same_invocation i id; [discriminate TK|]);
    try (replace (Nat.eqb (next c) id) with false by (symmetry; apply Nat.eqb_neq; lia));
    rewrite ?app_nil_r; repeat split; auto; try lia.
Qed.

Lemma started (id : nat) (c : Config) (st : Invocation) :
  (next c <= id -> st = IPhase None AwaitingInput) ->
  st <> IPhase None AwaitingInput ->
  id < next c.
Proof. intros N D. destruct (Nat.lt_ge_cases id (next c)) as [H|H]; [exact H|]. elim (D (N H)). Qed.

Lemma resolve_emails (c : Config) (id : nat) (l : list Task) (r : Response) :
  tasks_of id (pending c) =
    {| t_id := id; t_req := fetchEmailsRequest; t_k := afterEmails |} :: l ->
  exists c',
    step c (Net id (Resolved r)) = Some c' /\
    log c' = log c ++ [Settled id fetchEmailsRequest (Resolved r);
                       Navigated id Replace "/processing"].
Proof.
  intros P. destruct (take_of_tasks _ _ _ _ P) as (rest & T).
  eexists. split; [apply turn_step; apply (T_emails_resolved c id r rest T) | reflexivity].
Qed.

Lemma resolve_save (c : Config) (id : nat) (sel : option CalendarDate) (r : Response) :
  tasks_of id (pending c) =
    [{| t_id := id; t_req := saveStartDateRequest sel; t_k := afterSave |}] ->
  exists c',
    step c (Net id (Resolved r)) = Some c' /\
    log c' = log c ++ [Settled id (saveStartDateRequest sel) (Resolved r);
                       Issued id fetchEmailsRequest] /\
    tasks_of id (pending c') =
      [{| t_id := id; t_req := fetchEmailsRequest; t_k := afterEmails |}].
Proof.
  intros P. destruct (take_of_tasks _ _ _ _ P) as (rest & T).
  eexists. split; [apply turn_step; apply (T_save_resolved c id sel r rest T)|].
  split; [reflexivity|]. cbn [pending].
  destruct (take_spec _ _ _ _ T) as (_ & _ & _ & TK). specialize (TK id).
  rewrite Nat.eqb_refl, P in TK. apply cons_eq_inv in TK as [_ TK].
  rewrite tasks_of_app, <- TK. unfold tasks_of; cbn. rewrite Nat.eqb_refl. reflexivity.
Qed.

(** ** C1: what a rejected call does to the workflow *)

(** C1 as stated fails: when the persist-date call rejects, the confirmation
    has ended: its fetch-emails call is never issued and it never navigates,
    whatever happens next, so it is not true that every confirmation goes on
    to navigate. *)
Lemma C1_rejection_stops_workflow :
  ~ (forall ls c id,
       run init ls = Some c ->
       In (Gestured id Confirm) (log c) ->
       exists ls' c', run c ls' = Some c' /\
                      In (Issued id fetchEmailsRequest) (log c') /\
                      In (Navigated id Replace "/processing") (log c')).
Proof.
  intros claim.
  destruct (claim [UI Confirm; Net 0 Rejected] (config_of [] SaveRejected) 0)
    as (ls' & c' & R & _ & N).
  - reflexivity.
  - log_has.
  - assert (I : Inv (config_of [] SaveRejected))
      by (apply (reachable_inv [UI Confirm; Net 0 Rejected]); reflexivity).
    destruct (ended_stays 0 ls' _ c' I eq_refl (le_n 1) R) as (L & _ & _).
    apply in_events_of in N. cbn [event_id] in N. rewrite L in N.
    cbn in N. repeat (destruct N as [N|N]; [discriminate N|]). exact N.
Qed.

(** C1, amended: a confirmation has navigated to the processing route exactly
    when both of its calls have resolved, with whatever HTTP status. Once its
    persist-date call has rejected, that confirmation never issues the
    fetch-emails call and never navigates, whatever happens next; once its
    fetch-emails call has rejected, it never navigates. As long as none of its
    calls has rejected, the resolution of its outstanding calls leads to its
    navigation. *)
Theorem C1_navigation_iff_both_calls_resolved (ls : list Label) (c : Config) (id : nat) :
  run init ls = Some c ->
  In (Gestured id Confirm) (log c) ->
  (In (Navigated id Replace "/processing") (log c) <->
   exists sel r1 r2,
     In (Settled id (saveStartDateRequest sel) (Resolved r1)) (log c) /\
     In (Settled id fetchEmailsRequest (Resolved r2)) (log c)) /\
  (forall sel,
     In (Settled id (saveStartDateRequest sel) Rejected) (log c) ->
     forall ls' c', run c ls' = Some c' ->
     ~ In (Issued id fetchEmailsRequest) (log c') /\
     (forall m h, ~ In (Navigated id m h) (log c'))) /\
  (In (Settled id fetchEmailsRequest Rejected) (log c) ->
   forall ls' c', run c ls' = Some c' ->
   forall m h, ~ In (Navigated id m h) (log c')) /\
  ((forall r, ~ In (Settled id r Rejected) (log c)) ->
   forall r1 r2 : Response, exists ls' c',
     run c ls' = Some c' /\ In (Navigated id Replace "/processing") (log c')).
Proof.
  intros R HC. pose proof (reachable_inv _ _ R) as I.
  destruct (inv_each _ I id) as (st & L & P & N).
  assert (S : st <> IPhase None AwaitingInput -> id < next c) by apply (started _ _ _ N).
  destruct st as [d|sel ph]; [in_inv HC L|].
  destruct ph; in_inv HC L; clear HC.
  all: split; [split; [intros H | intros (q0 & q1 & q2 & H1 & H2)] |
               split; [intros q0 H ls' c' R' | split; [intros H ls' c' R' | intros NR r1' r2']]].
  all: try solve [in_inv H L].
  all: try solve [in_inv H2 L].
  all: try solve [inv_has L].
  all: try solve [eexists _, _, _; split; inv_has L].
  all: try solve [exfalso; eapply NR; inv_has L].
  all: try (destruct (ended_stays id ls' c c' I P (S ltac:(discriminate)) R') as (L' & _ & _);
            rewrite L in L'; repeat split; try intros m h; intros X; in_inv X L').
  - destruct (resolve_save c id sel r1' P) as (c1 & S1 & _ & P1).
    destruct (resolve_emails c1 id [] r2' P1) as (c2 & S2 & L2).
    exists [Net id (Resolved r1'); Net id (Resolved r2')], c2. split.
    + cbn [run]. rewrite S1, S2. reflexivity.
    + rewrite L2. apply in_or_app. right. simpl. auto.
  - destruct (resolve_emails c id [] r2' P) as (c2 & S2 & L2).
    exists [Net id (Resolved r2')], c2. split.
    + cbn [run]. rewrite S2. reflexivity.
    + rewrite L2. apply in_or_app. right. simpl. auto.
  - exists [], c. split; [reflexivity | inv_has L].
Qed.

Lemma C1_navigation_iff_both_calls_resolved_witness :
  run init [UI Confirm; UI Confirm; Net 0 (Resolved (mkResponse 200)); Net 0 Rejected] =
    Some (after [UI Confirm; UI Confirm; Net 0 (Resolved (mkResponse 200)); Net 0 Rejected]) /\
  In (Gestured 0 Confirm)
     (log (after [UI Confirm; UI Confirm; Net 0 (Resolved (mkResponse 200)); Net 0 Rejected])) /\
  In (Settled 0 fetchEmailsRequest Rejected)
     (log (after [UI Confirm; UI Confirm; Net 0 (Resolved (mkResponse 200)); Net 0 Rejected])) /\
  forall ls' c',
    run (after [UI Confirm; UI Confirm; Net 0 (Resolved (mkResponse 200)); Net 0 Rejected]) ls' =
      Some c' ->
    forall m h, ~ In (Navigated 0 m h) (log c').
Proof.
  split; [reflexivity|].
  split; [simpl; auto|]. split; [simpl; auto 12|].
  apply (C1_navigation_iff_both_calls_resolved
           [UI Confirm; UI Confirm; Net 0 (Resolved (mkResponse 200)); Net 0 Rejected]
           (after [UI Confirm; UI Confirm; Net 0 (Resolved (mkResponse 200)); Net 0 Rejected]) 0).
  - reflexivity.
  - simpl; auto.
  - simpl; auto 12.
Defined.

(** ** C2: the order of the two calls *)

(** C2: in every session, an issue of the fetch-emails call of a confirmation
    has the settlement of that confirmation's persist-date call before it in
    the log; and while the persist-date call is pending, the fetch-emails call
    has not been issued. *)
Theorem C2_fetch_emails_follows_persist_settlement (ls : list Label) (c : Config) (id : nat) :
  run init ls = Some c ->
  (forall l1 e l2,
     log c = l1 ++ e :: l2 ->
     issued_to "/api/fetch-emails" id e = true ->
     exists e', In e' l1 /\ settled_from "/api/save-start-date" id e' = true) /\
  (forall t,
     In t (pending c) -> t_id t = id -> url (t_req t) = "/api/save-start-date" ->
     forall e, In e (log c) -> issued_to "/api/fetch-emails" id e = false).
Proof.
  intros R. pose proof (reachable_inv _ _ R) as I.
  destruct (inv_each _ I id) as (st & L & P & _).
  split.
  - intros l1 e l2 E Q.
    assert (G : guarded (settled_from "/api/save-start-date" id)
                        (issued_to "/api/fetch-emails" id) false (log c) = true).
    { rewrite (guarded_events_of _ _ id) by other_invocation. rewrite L.
      destruct st as [d|sel ph]; [|destruct ph]; cbn; rewrite ?Nat.eqb_refl; reflexivity. }
    destruct (guarded_sound _ _ _ _ G l1 e l2 E Q) as [F|H]; [discriminate F | exact H].
  - intros t T E U e H.
    apply in_tasks_of in T. rewrite E, P in T.
    destruct (issued_to "/api/fetch-emails" id e) eqn:Q; [exfalso | reflexivity].
    assert (X : In e (filter (issued_to "/api/fetch-emails" id) (log c)))
      by (apply filter_In; split; assumption).
    rewrite (filter_events_of _ id) in X by other_invocation. rewrite L in X.
    destruct st as [d|sel ph]; [contradiction T|].
    destruct ph; cbn in T; try contradiction T; destruct T as [<-|[]];
      cbn in U; try discriminate U.
    cbn in X. rewrite ?andb_false_r in X. exact X.
Qed.
Lemma C2_fetch_emails_follows_persist_settlement_witness :
  run init [UI Confirm; Net 0 (Resolved (mkResponse 500))] =
    Some (config_of [] (AwaitingEmails (mkResponse 500))) /\
  exists e', In e' (confirm_log 0 None ++
                    [Settled 0 (saveStartDateRequest None) (Resolved (mkResponse 500))]) /\
             settled_from "/api/save-start-date" 0 e' = true.
Proof.
  split; [reflexivity|].
  apply (proj1 (C2_fetch_emails_follows_persist_settlement
                  [UI Confirm; Net 0 (Resolved (mkResponse 500))]
                  (config_of [] (AwaitingEmails (mkResponse 500))) 0 eq_refl)
               _ (Issued 0 fetchEmailsRequest) []); reflexivity.
Defined.

(** ** C3: the persist-date request *)

Example toString_2024_03_15 : toString (mkDate 2024 3 15) = "2024-03-15".
Proof. reflexivity. Qed.

(** C3 as stated fails: with no date picked, the body of the persist-date
    request is the empty object; the key is left out, it is not present with
    the value null. *)
Lemma C3_no_date_omits_key :
  body (saveStartDateRequest None) = "{}" /\
  body (saveStartDateRequest None) <> stringify [("start_date", JNull)].
Proof. split; [reflexivity | discriminate]. Qed.

(** C3, amended: the persist-date request is a POST to the persistence
    endpoint; when a date is set its body is the object whose only key,
    start_date, holds the date's calendar string (2024-03-15 for the 15th of
    March 2024), and when no date was picked its body is the empty object. It
    is the one request every confirm gesture issues at once, with the date
    picked at that moment. *)
Theorem C3_persist_request (ds : list (option CalendarDate)) :
  let r := saveStartDateRequest (last_change ds) in
  method r = "POST" /\
  url r = "/api/save-start-date" /\
  headers r = [("Content-Type", "application/json")] /\
  body r = match last_change ds with
           | Some d => ("{" ++ quoted "start_date" ++ ":" ++ quoted (toString d) ++ "}")%string
           | None => "{}"
           end /\
  body (saveStartDateRequest (Some (mkDate 2024 3 15))) =
    ("{" ++ quoted "start_date" ++ ":" ++ quoted "2024-03-15" ++ "}")%string /\
  exists c, run init (session ds AwaitingSave) = Some c /\
            In (Issued (length ds) r) (log c) /\
            forall id r', In (Issued id r') (log c) -> id = length ds /\ r' = r.
Proof.
  intros r. subst r. repeat split.
  - destruct (last_change ds) as [d|]; [|reflexivity].
    unfold saveStartDateRequest, stringify; cbn [body members optional_toString serialize].
    rewrite quote_toString. reflexivity.
  - exists (config_of ds AwaitingSave). split; [apply run_session|]. split; [log_has|].
    intros id r' H. in_log H. injection H as <- <-. split; reflexivity.
Qed.

(** ** C4: the modal flag *)

(** C4 as stated fails: the dialog's close gesture sets the flag to false in
    a session with no confirmation at all. *)
Lemma C4_close_gesture_hides_modal :
  ~ (forall ls c id,
       run init ls = Some c ->
       In (Updated id (SetShowModal false)) (log c) ->
       In (Gestured id Confirm) (log c)).
Proof.
  intros claim.
  specialize (claim [UI Close] (config_of [] Dismissed) 0 eq_refl).
  assert (H : In (Gestured 0 Confirm) (log (config_of [] Dismissed))) by (apply claim; log_has).
  in_log H.
Qed.

(** C4, amended: the flag starts true and is never set back to true: its
    setter is only ever called with false, by the handler of a confirm gesture
    or of a close gesture, at most once by each such gesture, and the flag is
    false exactly when such a call was made; a handler that issues a request
    has made the call before. *)
Theorem C4_modal_flag (ls : list Label) (c : Config) :
  run init ls = Some c ->
  showModal (ui init) = true /\
  (showModal (ui c) = false <-> exists id, In (Updated id (SetShowModal false)) (log c)) /\
  (forall id b,
     In (Updated id (SetShowModal b)) (log c) ->
     b = false /\ (In (Gestured id Confirm) (log c) \/ In (Gestured id Close) (log c))) /\
  (forall id, length (filter (hides_modal id) (log c)) <= 1) /\
  (forall id l1 e l2,
     log c = l1 ++ e :: l2 -> issued_by id e = true ->
     exists e', In e' l1 /\ hides_modal id e' = true) /\
  (forall l c', step c l = Some c' -> showModal (ui c) = false -> showModal (ui c') = false).
Proof.
  intros R. pose proof (reachable_inv _ _ R) as I.
  assert (B : forall id b, In (Updated id (SetShowModal b)) (log c) ->
                b = false /\ (In (Gestured id Confirm) (log c) \/ In (Gestured id Close) (log c))).
  { intros id b H. destruct (inv_each _ I id) as (st & L & _ & _).
    destruct st as [d|sel ph]; [in_inv H L|].
    destruct ph; in_inv H L; injection H as <-;
      (split; [reflexivity|]); [right | left ..]; inv_has L. }
  split; [reflexivity|]. split; [|split; [exact B|split; [|split]]].
  - rewrite (inv_flag _ I). split.
    + intros H. apply negb_false_iff in H. apply existsb_exists in H as (e & M & S).
      destruct e as [| i [b| |] | | | |]; try discriminate S.
      exists i. destruct (B i b M) as [-> _]. exact M.
    + intros (id & M). apply negb_false_iff. apply existsb_exists.
      exists (Updated id (SetShowModal false)). split; [exact M | reflexivity].
  - intros id. destruct (inv_each _ I id) as (st & L & _ & _).
    rewrite (filter_events_of _ id) by other_invocation. rewrite L.
    destruct st as [d|sel ph]; [|destruct ph]; cbn; rewrite ?Nat.eqb_refl; cbn; lia.
  - intros id l1 e l2 E Q. destruct (inv_each _ I id) as (st & L & _ & _).
    assert (G : guarded (hides_modal id) (issued_by id) false (log c) = true).
    { rewrite (guarded_events_of _ _ id) by other_invocation. rewrite L.
      destruct st as [d|sel ph]; [|destruct ph]; cbn; rewrite ?Nat.eqb_refl; reflexivity. }
    destruct (guarded_sound _ _ _ _ G l1 e l2 E Q) as [X|H]; [discriminate X | exact H].
  - intros l c' S H. apply (step_turn _ _ _ (inv_wf _ I)) in S.
    destruct S; cbn; auto.
Qed.

Lemma C4_modal_flag_witness :
  run init [UI Confirm; UI Confirm] = Some (after [UI Confirm; UI Confirm]) /\
  length (filter (hides_modal 0) (log (after [UI Confirm; UI Confirm]))) <= 1 /\
  length (filter sets_showModal (log (after [UI Confirm; UI Confirm]))) = 2.
Proof.
  split; [reflexivity|]. split.
  - apply (C4_modal_flag [UI Confirm; UI Confirm] (after [UI Confirm; UI Confirm]) eq_refl).
  - reflexivity.
Defined.

(** ** C5: the confirmed date is a snapshot of the picked one *)

Lemma last_default (A : Type) (l : list A) (a x y : A) : last (a :: l) x = last (a :: l) y.
Proof. revert a. induction l as [|b l IH]; intros a; [reflexivity|]. apply (IH b). Qed.

Lemma last_cons (A : Type) (l : list A) (a x : A) : last (a :: l) x = last l a.
Proof. destruct l as [|b l]; [reflexivity|]. apply (last_default A l b x a). Qed.

Lemma changes_of_changes (ds : list (option CalendarDate)) :
  changes_of (map (fun d => UI (Change d)) ds) = ds.
Proof. induction ds as [|d ds IH]; simpl; [reflexivity | rewrite IH; reflexivity]. Qed.

(** The picked date follows the changes, whatever else happens. *)
Lemma run_selected (ls : list Label) (c0 c : Config) :
  Inv c0 -> run c0 ls = Some c ->
  selectedDate (ui c) = last (changes_of ls) (selectedDate (ui c0)).
Proof.
  revert c0. induction ls as [|l ls IH]; intros c0 I R; simpl in R.
  - injection R as <-. reflexivity.
  - destruct (step c0 l) as [c1|] eqn:S; [|discriminate R].
    pose proof (step_turn _ _ _ (inv_wf _ I) S) as T.
    rewrite (IH c1 (turn_inv _ _ _ I T) R).
    destruct T; cbn [changes_of ui selectedDate]; try reflexivity.
    symmetry. apply last_cons.
Qed.

(** Only a confirm gesture writes the confirmed date. *)
Lemma run_start (ls : list Label) (c0 c : Config) :
  Inv c0 -> run c0 ls = Some c -> ~ In (UI Confirm) ls ->
  startDate (ui c) = startDate (ui c0).
Proof.
  revert c0. induction ls as [|l ls IH]; intros c0 I R N; simpl in R.
  - injection R as <-. reflexivity.
  - destruct (step c0 l) as [c1|] eqn:S; [|discriminate R].
    pose proof (step_turn _ _ _ (inv_wf _ I) S) as T.
    rewrite (IH c1 (turn_inv _ _ _ I T) R) by (intros X; apply N; right; exact X).
    destruct T; cbn [ui startDate]; try reflexivity.
    elim N. left. reflexivity.
Qed.

Lemma run_confirm (ls ls' : list Label) (c' : Config) :
  run init (ls ++ UI Confirm :: ls') = Some c' ->
  ~ In (UI Confirm) ls' ->
  startDate (ui c') = last (changes_of ls) None.
Proof.
  intros R N. rewrite run_app in R.
  destruct (run init ls) as [c0|] eqn:R0; [|discriminate R].
  pose proof (reachable_inv _ _ R0) as I0.
  cbn [run] in R. destruct (step c0 (UI Confirm)) as [c1|] eqn:S; [|discriminate R].
  pose proof (step_turn _ _ _ (inv_wf _ I0) S) as T.
  rewrite (run_start ls' c1 c' (turn_inv _ _ _ I0 T) R N).
  inversion T; subst; cbn [ui startDate].
  apply (run_selected ls init c0 inv_init R0).
Qed.

(** C5: after any sequence of changes of the date picker followed by a
    confirm gesture, the confirmed date is the last value the picker handed to
    its callback, absent if there was none; and it stays so whatever follows
    short of another confirm gesture: later changes of the picked date, made
    while the dialog is still on screen, a close gesture, and the settlements
    of the calls leave it as it is. The same holds for a confirm gesture made
    at any point of a session. *)
Theorem C5_confirmed_date_is_last_change (ds : list (option CalendarDate)) :
  (exists c,
     run init (map (fun d => UI (Change d)) ds ++ [UI Confirm]) = Some c /\
     startDate (ui c) = last ds None) /\
  (forall ls' c',
     run init (map (fun d => UI (Change d)) ds ++ UI Confirm :: ls') = Some c' ->
     ~ In (UI Confirm) ls' ->
     startDate (ui c') = last ds None) /\
  (forall ls ls' c',
     run init (ls ++ UI Confirm :: ls') = Some c' ->
     ~ In (UI Confirm) ls' ->
     startDate (ui c') = last (changes_of ls) None).
Proof.
  split; [|split].
  - exists (config_of ds AwaitingSave). split; [apply (run_session ds AwaitingSave) | reflexivity].
  - intros ls' c' R N. rewrite (run_confirm _ _ _ R N), changes_of_changes. reflexivity.
  - intros ls ls' c' R N. apply (run_confirm _ _ _ R N).
Qed.

Lemma C5_confirmed_date_is_last_change_witness :
  run init (map (fun d => UI (Change d)) [Some (mkDate 2024 3 15)] ++
            UI Confirm :: [UI (Change None); Net 1 (Resolved (mkResponse 200))]) =
    Some (after [UI (Change (Some (mkDate 2024 3 15))); UI Confirm; UI (Change None);
                 Net 1 (Resolved (mkResponse 200))]) /\
  ~ In (UI Confirm) [UI (Change None); Net 1 (Resolved (mkResponse 200))] /\
  selectedDate (ui (after [UI (Change (Some (mkDate 2024 3 15))); UI Confirm; UI (Change None);
                           Net 1 (Resolved (mkResponse 200))])) = None /\
  startDate (ui (after [UI (Change (Some (mkDate 2024 3 15))); UI Confirm; UI (Change None);
                        Net 1 (Resolved (mkResponse 200))])) =
    last [Some (mkDate 2024 3 15)] None.
Proof.
  assert (N : ~ In (UI Confirm) [UI (Change None); Net 1 (Resolved (mkResponse 200))])
    by (simpl; intros [X|[X|[]]]; discriminate X).
  split; [reflexivity|]. split; [exact N|]. split; [reflexivity|].
  apply (proj1 (proj2 (C5_confirmed_date_is_last_change [Some (mkDate 2024 3 15)]))
               [UI (Change None); Net 1 (Resolved (mkResponse 200))]
               (after [UI (Change (Some (mkDate 2024 3 15))); UI Confirm; UI (Change None);
                       Net 1 (Resolved (mkResponse 200))]) eq_refl N).
Defined.

Example C5_no_change : exists c, run init [UI Confirm] = Some c /\ startDate (ui c) = None.
Proof. eexists. split; reflexivity. Qed.

(** ** C6: the confirm gesture has no guard *)

(** C6 as stated fails in one respect: the second call is not issued by every
    confirmation. With no date picked and a persist-date call that rejects,
    the confirmation has the persist-date call as its only call, whatever
    happens next. *)
Lemma C6_second_call_needs_first_resolved :
  ~ (forall ls c id,
       run init ls = Some c ->
       In (Gestured id Confirm) (log c) ->
       exists ls' c', run c ls' = Some c' /\
                      In (Issued id (saveStartDateRequest (startDate (ui c')))) (log c') /\
                      In (Issued id fetchEmailsRequest) (log c')).
Proof.
  intros claim.
  destruct (claim [UI Confirm; Net 0 Rejected] (config_of [] SaveRejected) 0)
    as (ls' & c' & R & _ & N).
  - reflexivity.
  - log_has.
  - assert (I : Inv (config_of [] SaveRejected))
      by (apply (reachable_inv [UI Confirm; Net 0 Rejected]); reflexivity).
    destruct (ended_stays 0 ls' _ c' I eq_refl (le_n 1) R) as (L & _ & _).
    apply in_events_of in N. cbn [event_id] in N. rewrite L in N.
    cbn in N. repeat (destruct N as [N|N]; [discriminate N|]). exact N.
Qed.

(** C6, amended: whenever the dialog is on screen, whatever the picked date,
    unset included, the confirm gesture is a turn; it records the picked date
    as the confirmed one, closes the modal, and issues the persist-date call.
    The fetch-emails call of the confirmation is issued when its persist-date
    call resolves; when that call rejects, the confirmation has ended: it gets
    no further event, whatever happens next. No turn but a confirm gesture
    issues a persist-date call. *)
Theorem C6_confirm_has_no_guard (ls : list Label) (c : Config) :
  run init ls = Some c ->
  mounted c = true ->
  (exists c1,
     step c (UI Confirm) = Some c1 /\
     startDate (ui c1) = selectedDate (ui c) /\
     showModal (ui c1) = false /\
     log c1 = log c ++ confirm_log (next c) (selectedDate (ui c)) /\
     pending c1 = pending c ++
                  [{| t_id := next c;
                      t_req := saveStartDateRequest (selectedDate (ui c));
                      t_k := afterSave |}] /\
     (forall r1, exists c2,
        step c1 (Net (next c) (Resolved r1)) = Some c2 /\
        log c2 = log c1 ++
                 [Settled (next c) (saveStartDateRequest (selectedDate (ui c))) (Resolved r1);
                  Issued (next c) fetchEmailsRequest]) /\
     (exists c2,
        step c1 (Net (next c) Rejected) = Some c2 /\
        log c2 = log c1 ++
                 [Settled (next c) (saveStartDateRequest (selectedDate (ui c))) Rejected;
                  Unhandled (next c)] /\
        forall ls' c3, run c2 ls' = Some c3 ->
                       events_of (next c) (log c3) = events_of (next c) (log c2))) /\
  (forall l c', step c l = Some c' -> l <> UI Confirm ->
                filter (issue_of "/api/save-start-date") (log c') =
                filter (issue_of "/api/save-start-date") (log c)) /\
  (forall sel, exists c0,
     run init [UI (Change sel)] = Some c0 /\
     mounted c0 = true /\ showModal (ui c0) = true /\ selectedDate (ui c0) = sel).
Proof.
  intros R M. pose proof (reachable_inv _ _ R) as I.
  split; [|split].
  - pose proof (T_confirm c M) as T. pose proof (turn_inv _ _ _ I T) as I1.
    eexists. split; [apply (turn_step _ _ _ T)|].
    split; [reflexivity|]. split; [reflexivity|]. split; [reflexivity|].
    split; [reflexivity|].
    match type of I1 with Inv ?x => set (c1 := x) in * end.
    assert (P1 : tasks_of (next c) (pending c1) =
                 [{| t_id := next c; t_req := saveStartDateRequest (selectedDate (ui c));
                     t_k := afterSave |}]).
    { destruct (inv_each _ I (next c)) as (st & _ & P & N).
      rewrite (N (le_n _)) in P. subst c1. cbn [pending].
      rewrite tasks_of_app, P. unfold tasks_of; cbn. rewrite Nat.eqb_refl. reflexivity. }
    split.
    + intros r1. destruct (resolve_save c1 _ _ r1 P1) as (c2 & S2 & L2 & _).
      exists c2. split; assumption.
    + destruct (take_of_tasks _ _ _ _ P1) as (rest & TK).
      assert (W : wf_task {| t_id := next c;
                             t_req := saveStartDateRequest (selectedDate (ui c));
                             t_k := afterSave |})
        by (left; eexists; split; reflexivity).
      pose proof (T_rejected c1 _ _ _ TK W) as T2.
      eexists. split; [apply (turn_step _ _ _ T2)|]. split; [reflexivity|].
      intros ls' c3 R3.
      refine (proj1 (ended_stays (next c) ls' _ c3 (turn_inv _ _ _ I1 T2) _ _ R3)).
      * cbn [pending]. destruct (take_spec _ _ _ _ TK) as (_ & _ & _ & X).
        specialize (X (next c)). rewrite Nat.eqb_refl, P1 in X.
        apply cons_eq_inv in X as [_ X]. symmetry. exact X.
      * cbn. lia.
  - intros l c' S N. apply (step_turn _ _ _ (inv_wf _ I)) in S.
    destruct S; cbn [log]; rewrite ?filter_app; cbn; rewrite ?app_nil_r; try reflexivity.
    elim N. reflexivity.
  - intros sel. eexists. split; [reflexivity|]. repeat split.
Qed.

Lemma C6_confirm_has_no_guard_witness :
  run init [] = Some init /\ mounted init = true /\
  exists c1, step init (UI Confirm) = Some c1 /\ startDate (ui c1) = None /\
             showModal (ui c1) = false.
Proof.
  split; [reflexivity|]. split; [reflexivity|].
  destruct (C6_confirm_has_no_guard [] init eq_refl eq_refl)
    as [(c1 & S & D & M & _) _].
  exists c1. split; [exact S|]. split; [exact D | exact M].
Defined.

(** ** C7: the navigation *)

Lemma history_replaces (l : list Event) (cur : string) (older : list string) :
  replaces_only l ->
  history_after (cur :: older) l =
  (if existsb is_navigation (filter is_navigation l) then "/processing" else cur) :: older.
Proof.
  unfold history_after. revert cur. induction l as [|e l IH]; intros cur N; [reflexivity|].
  assert (N' : replaces_only l) by (intros i m h H; apply (N i m h); right; exact H).
  destruct e as [| | | |i m h|]; cbn [fold_left filter is_navigation]; try apply (IH cur N').
  destruct (N i m h (or_introl eq_refl)) as [-> ->]. cbn [navigate tl existsb orb].
  rewrite (IH _ N'). destruct (existsb is_navigation (filter is_navigation l)); reflexivity.
Qed.

(** C7 as stated fails: when the fetch-emails call rejects, the confirmation
    has ended and has navigated zero times, not once, whatever happens
    next. *)
Lemma C7_no_navigation_after_rejection :
  ~ (forall ls c id,
       run init ls = Some c ->
       In (Gestured id Confirm) (log c) ->
       exists ls' c', run c ls' = Some c' /\
                      length (filter (navigated_by id) (log c')) = 1).
Proof.
  intros claim.
  destruct (claim [UI Confirm; Net 0 (Resolved (mkResponse 200)); Net 0 Rejected]
                  (config_of [] (EmailsRejected (mkResponse 200))) 0)
    as (ls' & c' & R & N).
  - reflexivity.
  - log_has.
  - assert (I : Inv (config_of [] (EmailsRejected (mkResponse 200))))
      by (apply (reachable_inv
                   [UI Confirm; Net 0 (Resolved (mkResponse 200)); Net 0 Rejected]);
          reflexivity).
    destruct (ended_stays 0 ls' _ c' I eq_refl (le_n 1) R) as (L & _ & _).
    rewrite (filter_events_of _ 0) in N by other_invocation. rewrite L in N.
    discriminate N.
Qed.

(** C7, amended: a confirmation navigates at most once, and as many times as
    its fetch-emails call has resolved; every navigation is a replace to the
    processing route, made by a confirmation, with the resolution of both of
    its calls before it; and once it is made, the entry of the onboarding
    screen is gone from the history, whose older entries are untouched. *)
Theorem C7_navigation (ls : list Label) (c : Config) (id : nat) :
  run init ls = Some c ->
  length (filter (navigated_by id) (log c)) <= 1 /\
  length (filter (navigated_by id) (log c)) =
    length (filter (resolved_from "/api/fetch-emails" id) (log c)) /\
  (forall i m h,
     In (Navigated i m h) (log c) ->
     m = Replace /\ h = "/processing" /\ In (Gestured i Confirm) (log c)) /\
  (forall l1 e l2,
     log c = l1 ++ e :: l2 -> navigated_by id e = true ->
     (exists e1, In e1 l1 /\ resolved_from "/api/save-start-date" id e1 = true) /\
     (exists e2, In e2 l1 /\ resolved_from "/api/fetch-emails" id e2 = true)) /\
  (forall cur older,
     history_after (cur :: older) (log c) =
     (if existsb is_navigation (filter is_navigation (log c))
      then "/processing" else cur) :: older).
Proof.
  intros R. pose proof (reachable_inv _ _ R) as I.
  assert (B : forall i m h, In (Navigated i m h) (log c) ->
                m = Replace /\ h = "/processing" /\ In (Gestured i Confirm) (log c)).
  { intros i m h H. destruct (inv_each _ I i) as (st & L & _ & _).
    destruct st as [d|sel ph]; [in_inv H L|].
    destruct ph; in_inv H L. injection H as <- <-.
    split; [reflexivity|]. split; [reflexivity|]. inv_has L. }
  destruct (inv_each _ I id) as (st & L & _ & _).
  split; [|split; [|split; [exact B|split]]].
  - rewrite (filter_events_of _ id) by other_invocation. rewrite L.
    destruct st as [d|sel ph]; [|destruct ph]; cbn; rewrite ?Nat.eqb_refl; cbn; lia.
  - rewrite (filter_events_of (navigated_by id) id),
            (filter_events_of (resolved_from "/api/fetch-emails" id) id) by other_invocation.
    rewrite L.
    destruct st as [d|sel ph]; [|destruct ph]; cbn; rewrite ?Nat.eqb_refl; reflexivity.
  - intros l1 e l2 E Q. split.
    + assert (G : guarded (resolved_from "/api/save-start-date" id) (navigated_by id) false
                          (log c) = true).
      { rewrite (guarded_events_of _ _ id) by other_invocation. rewrite L.
        destruct st as [d|sel ph]; [|destruct ph]; cbn; rewrite ?Nat.eqb_refl; reflexivity. }
      destruct (guarded_sound _ _ _ _ G l1 e l2 E Q) as [X|H]; [discriminate X | exact H].
    + assert (G : guarded (resolved_from "/api/fetch-emails" id) (navigated_by id) false
                          (log c) = true).
      { rewrite (guarded_events_of _ _ id) by other_invocation. rewrite L.
        destruct st as [d|sel ph]; [|destruct ph]; cbn; rewrite ?Nat.eqb_refl; reflexivity. }
      destruct (guarded_sound _ _ _ _ G l1 e l2 E Q) as [X|H]; [discriminate X | exact H].
  - intros cur older. apply history_replaces.
    intros i m h H. destruct (B i m h H) as (-> & -> & _). split; reflexivity.
Qed.

Lemma C7_navigation_witness :
  run init [UI Confirm; Net 0 (Resolved (mkResponse 404)); Net 0 (Resolved (mkResponse 200))] =
    Some (config_of [] (Completed (mkResponse 404) (mkResponse 200))) /\
  history_after ["/dashboard"; "/"]
    (log (config_of [] (Completed (mkResponse 404) (mkResponse 200)))) = ["/processing"; "/"].
Proof.
  split; [reflexivity|].
  apply (C7_navigation
           [UI Confirm; Net 0 (Resolved (mkResponse 404)); Net 0 (Resolved (mkResponse 200))]
           (config_of [] (Completed (mkResponse 404) (mkResponse 200))) 0 eq_refl).
Defined.

(** While the modal is open, every invocation so far is a change of the
    picked date. *)
Lemma open_modal_invocations (c : Config) (id : nat) :
  Inv c -> showModal (ui c) = true ->
  exists st,
    events_of id (log c) = inv_log id st /\
    tasks_of id (pending c) = [] /\
    (forall r, ~ In (Issued id r) (inv_log id st)) /\
    (forall v, ~ In (Updated id (SetStartDate v)) (inv_log id st)).
Proof.
  intros I M. destruct (inv_each _ I id) as (st & L & P & _). exists st.
  pose proof (inv_flag _ I) as F. rewrite M in F. symmetry in F. apply negb_true_iff in F.
  assert (X : ~ In (Updated id (SetShowModal false)) (inv_log id st)).
  { intros X. apply (inv_log_in _ _ _ _ L) in X.
    assert (Y : existsb sets_showModal (log c) = true)
      by (apply existsb_exists; eexists; split; [exact X | reflexivity]).
    rewrite F in Y. discriminate Y. }
  split; [exact L|]. rewrite P.
  destruct st as [d|sel ph]; [|destruct ph]; cbn in X |- *;
    try (elim X; auto 8; fail);
    repeat split; intros; intros Z;
    repeat (destruct Z as [Z|Z]; [discriminate Z|]); exact Z.
Qed.

(** ** C8: the view *)

(** C8: in every session, the tree the component renders is decided by the
    three pieces of state. While [showModal] is true the dialog is on screen
    and the dashboard is not rendered; whenever the dialog is on screen, its
    picker shows the picked date and its Confirm button runs [handleConfirm]
    on that date. While [showModal] is false the dashboard is rendered with
    the summary line, which shows the calendar string of the confirmed date,
    a date some confirm gesture recorded, or the placeholder when there is
    none. The settlement of a call, resolved or rejected, leaves the rendered
    tree as it is: no loading or error view exists. *)
Theorem C8_render (ls : list Label) (c : Config) :
  run init ls = Some c ->
  render (ui c) =
    {| show := showModal (ui c);
       dialog := {| onClose := setShowModal false;
                    heading := "Please enter the start date of your current job search:";
                    pickerValue := selectedDate (ui c);
                    onChange := setSelectedDate;
                    buttonLabel := "Confirm";
                    onClick := handleConfirm (selectedDate (ui c)) |};
       dashboard :=
         if showModal (ui c) then None
         else Some {| title := "Dashboard";
                      summary := match startDate (ui c) with
                                 | Some d => ("Your job search start date: " ++ toString d)%string
                                 | None => "Your job search start date: Not set"
                                 end |} |} /\
  (showModal (ui c) = true -> mounted c = true /\ startDate (ui c) = None) /\
  (mounted c = true ->
   exists c1, step c (UI Confirm) = Some c1 /\
              log c1 = log c ++ confirm_log (next c) (pickerValue (dialog (render (ui c))))) /\
  (forall d, startDate (ui c) = Some d ->
             exists i, In (Gestured i Confirm) (log c) /\
                       In (Updated i (SetStartDate (Some d))) (log c)) /\
  (forall i o c', step c (Net i o) = Some c' -> render (ui c') = render (ui c)).
Proof.
  intros R. pose proof (reachable_inv _ _ R) as I.
  assert (D : forall d, startDate (ui c) = Some d ->
                exists i, In (Gestured i Confirm) (log c) /\
                          In (Updated i (SetStartDate (Some d))) (log c)).
  { intros d S. destruct (inv_start _ I d S) as (i & H). exists i. split; [|exact H].
    destruct (inv_each _ I i) as (st & L & _ & _).
    destruct st as [d'|sel ph]; [in_inv H L|]. destruct ph; in_inv H L; inv_has L. }
  split; [|split; [|split; [|split; [exact D|]]]].
  - unfold render. destruct (showModal (ui c)); cbn [negb]; [reflexivity|].
    destruct (startDate (ui c)); reflexivity.
  - intros S. split.
    + destruct (mounted c) eqn:M; [reflexivity|].
      rewrite (inv_mounted _ I M) in S. discriminate S.
    + destruct (startDate (ui c)) as [d|] eqn:SD; [|reflexivity].
      destruct (D d eq_refl) as (i & _ & H).
      pose proof (inv_flag _ I) as F. rewrite S in F. symmetry in F.
      apply negb_true_iff in F.
      destruct (inv_each _ I i) as (st & L & _ & _).
      assert (X : In (Updated i (SetShowModal false)) (log c)).
      { destruct st as [d'|sel ph]; [in_inv H L|]. destruct ph; in_inv H L; inv_has L. }
      assert (Y : existsb sets_showModal (log c) = true)
        by (apply existsb_exists; eexists; split; [exact X | reflexivity]).
      rewrite F in Y. discriminate Y.
  - intros M. eexists. split; [apply (turn_step _ _ _ (T_confirm c M)) | reflexivity].
  - intros i o c' S. apply (step_turn _ _ _ (inv_wf _ I)) in S.
    inversion S; subst; reflexivity.
Qed.

Lemma C8_render_witness :
  run init [UI (Change (Some (mkDate 2024 3 15))); UI Confirm] =
    Some (config_of [Some (mkDate 2024 3 15)] AwaitingSave) /\
  mounted (config_of [Some (mkDate 2024 3 15)] AwaitingSave) = true /\
  exists c1,
    step (config_of [Some (mkDate 2024 3 15)] AwaitingSave) (UI Confirm) = Some c1 /\
    log c1 =
      log (config_of [Some (mkDate 2024 3 15)] AwaitingSave) ++
      confirm_log (next (config_of [Some (mkDate 2024 3 15)] AwaitingSave))
        (pickerValue (dialog (render (ui (config_of [Some (mkDate 2024 3 15)] AwaitingSave))))).
Proof.
  split; [reflexivity|]. split; [reflexivity|].
  apply (C8_render [UI (Change (Some (mkDate 2024 3 15))); UI Confirm]
                   (config_of [Some (mkDate 2024 3 15)] AwaitingSave) eq_refl).
  reflexivity.
Defined.

(** ** C9: dismissing the dialog *)

(** C9: in every session, the dialog's close gesture, when it is a turn, sets
    [showModal] to false and does nothing else: the picked and the confirmed
    date and the pending calls are as they were, and the log gains the gesture
    and the setter call, no request and no navigation. The dashboard is then
    rendered; when the gesture dismisses the open dialog, no date is
    confirmed, no request was ever issued and no navigation made in the
    session, and the summary shows the placeholder. *)
Theorem C9_close_gesture (ls : list Label) (c c' : Config) :
  run init ls = Some c ->
  step c (UI Close) = Some c' ->
  showModal (ui c') = false /\
  selectedDate (ui c') = selectedDate (ui c) /\
  startDate (ui c') = startDate (ui c) /\
  pending c' = pending c /\
  log c' = log c ++ [Gestured (next c) Close; Updated (next c) (SetShowModal false)] /\
  option_map title (dashboard (render (ui c'))) = Some "Dashboard" /\
  (showModal (ui c) = true ->
   (forall id r, ~ In (Issued id r) (log c')) /\
   (forall id m h, ~ In (Navigated id m h) (log c')) /\
   pending c' = [] /\
   option_map summary (dashboard (render (ui c'))) =
     Some "Your job search start date: Not set").
Proof.
  intros R S. pose proof (reachable_inv _ _ R) as I.
  pose proof (step_turn _ _ _ (inv_wf _ I) S) as T.
  pose proof (turn_inv _ _ _ I T) as I'.
  inversion T; subst. cbn [ui pending log showModal selectedDate startDate].
  repeat (split; [reflexivity|]).
  intros M. split; [|split; [|split]].
  - intros id r X. apply in_app_or in X as [X|X].
    + destruct (open_modal_invocations c id I M) as (st & L & _ & NI & _).
      apply (NI r). rewrite <- L. apply (in_events_of _ _ X).
    + simpl in X. destruct X as [X|[X|[]]]; discriminate X.
  - intros id m h X. apply in_app_or in X as [X|X].
    + destruct (inv_each _ I id) as (st & L & P & _).
      destruct (open_modal_invocations c id I M) as (_ & _ & P' & _).
      rewrite P' in P.
      destruct st as [d|sel ph]; [in_inv X L|].
      destruct ph; try discriminate P; in_inv X L.
      pose proof (inv_flag _ I) as F. rewrite M in F. symmetry in F.
      apply negb_true_iff in F.
      assert (Y : existsb sets_showModal (log c) = true).
      { apply existsb_exists. exists (Updated id (SetShowModal false)).
        split; [inv_has L | reflexivity]. }
      rewrite F in Y. discriminate Y.
    + simpl in X. destruct X as [X|[X|[]]]; discriminate X.
  - apply tasks_of_nil. intros id.
    destruct (open_modal_invocations c id I M) as (st & _ & P & _). exact P.
  - cbn. destruct (startDate (ui c)) as [d|] eqn:SD; [|reflexivity].
    destruct (inv_start _ I d SD) as (i & X).
    destruct (open_modal_invocations c i I M) as (st & L & _ & _ & NS).
    elim (NS (Some d)). rewrite <- L. apply (in_events_of _ _ X).
Qed.

Lemma C9_close_gesture_witness :
  run init [UI (Change (Some (mkDate 2024 3 15)))] =
    Some (config_of [Some (mkDate 2024 3 15)] AwaitingInput) /\
  step (config_of [Some (mkDate 2024 3 15)] AwaitingInput) (UI Close) =
    Some (config_of [Some (mkDate 2024 3 15)] Dismissed) /\
  startDate (ui (config_of [Some (mkDate 2024 3 15)] Dismissed)) =
    startDate (ui (config_of [Some (mkDate 2024 3 15)] AwaitingInput)) /\
  option_map summary (dashboard (render (ui (config_of [Some (mkDate 2024 3 15)] Dismissed)))) =
    Some "Your job search start date: Not set".
Proof.
  split; [reflexivity|]. split; [reflexivity|].
  destruct (C9_close_gesture [UI (Change (Some (mkDate 2024 3 15)))]
              (config_of [Some (mkDate 2024 3 15)] AwaitingInput)
              (config_of [Some (mkDate 2024 3 15)] Dismissed) eq_refl eq_refl)
    as (_ & _ & D & _ & _ & _ & V).
  split; [exact D|]. apply (V eq_refl).
Defined.

(** ** C10: the fetch-emails request *)

Lemma issued_emails_request (ls : list Label) (c : Config) (id : nat) (r : Request) :
  run init ls = Some c ->
  In (Issued id r) (log c) ->
  url r = "/api/fetch-emails" ->
  r = fetchEmailsRequest.
Proof.
  intros R H U. pose proof (reachable_inv _ _ R) as I.
  destruct (inv_each _ I id) as (st & L & _ & _).
  destruct st as [d|sel ph]; [in_inv H L|].
  destruct ph; in_inv H L; injection H as <-; try discriminate U; reflexivity.
Qed.

(** C10: whatever dates were picked and confirmed, the requests two sessions
    send to the fetch-emails endpoint are the same request, whose body is the
    object with the single key user_id and the placeholder identifier; no
    date occurs in it. *)
Theorem C10_fetch_emails_request_is_constant
    (ls1 ls2 : list Label) (c1 c2 : Config) (id1 id2 : nat) (r1 r2 : Request) :
  run init ls1 = Some c1 ->
  run init ls2 = Some c2 ->
  In (Issued id1 r1) (log c1) -> url r1 = "/api/fetch-emails" ->
  In (Issued id2 r2) (log c2) -> url r2 = "/api/fetch-emails" ->
  r1 = r2 /\
  method r1 = "POST" /\
  body r1 = ("{" ++ quoted "user_id" ++ ":" ++ quoted "your_user_id_here" ++ "}")%string.
Proof.
  intros R1 R2 H1 U1 H2 U2.
  rewrite (issued_emails_request _ _ _ _ R1 H1 U1), (issued_emails_request _ _ _ _ R2 H2 U2).
  repeat split.
Qed.

Lemma C10_fetch_emails_request_is_constant_witness :
  run init (session [Some (mkDate 2024 3 15)] (AwaitingEmails (mkResponse 200))) =
    Some (config_of [Some (mkDate 2024 3 15)] (AwaitingEmails (mkResponse 200))) /\
  run init (session [] (AwaitingEmails (mkResponse 500))) =
    Some (config_of [] (AwaitingEmails (mkResponse 500))) /\
  body fetchEmailsRequest =
    ("{" ++ quoted "user_id" ++ ":" ++ quoted "your_user_id_here" ++ "}")%string.
Proof.
  split; [reflexivity|]. split; [reflexivity|].
  apply (C10_fetch_emails_request_is_constant
           (session [Some (mkDate 2024 3 15)] (AwaitingEmails (mkResponse 200)))
           (session [] (AwaitingEmails (mkResponse 500)))
           (config_of [Some (mkDate 2024 3 15)] (AwaitingEmails (mkResponse 200)))
           (config_of [] (AwaitingEmails (mkResponse 500)))
           1 0 fetchEmailsRequest fetchEmailsRequest);
    try reflexivity; simpl; auto 12.
Defined.

(** * Further properties of the screen *)

(** ** How often things happen *)

(** X2: no invocation sends a request twice: each issues the persist-date
    call at most once and the fetch-emails call at most once. Over a whole
    session, the persist-date call is issued exactly once per confirm gesture,
    and the fetch-emails call exactly once per resolved persist-date call. *)
Theorem X2_no_request_twice (ls : list Label) (c : Config) :
  run init ls = Some c ->
  (forall id,
     length (filter (issued_to "/api/save-start-date" id) (log c)) <= 1 /\
     length (filter (issued_to "/api/fetch-emails" id) (log c)) <= 1) /\
  length (filter (issue_of "/api/save-start-date") (log c)) =
    length (filter confirm_gesture (log c)) /\
  length (filter (issue_of "/api/fetch-emails") (log c)) =
    length (filter (resolution_of "/api/save-start-date") (log c)).
Proof.
  intros R. split.
  - intros id. pose proof (reachable_inv _ _ R) as I.
    destruct (inv_each _ I id) as (st & L & _ & _).
    rewrite (filter_events_of (issued_to "/api/save-start-date" id) id),
            (filter_events_of (issued_to "/api/fetch-emails" id) id) by other_invocation.
    rewrite L.
    destruct st as [d|sel ph]; [|destruct ph]; cbn; rewrite ?Nat.eqb_refl; cbn; lia.
  - apply (run_inv_ind
             (fun c => length (filter (issue_of "/api/save-start-date") (log c)) =
                         length (filter confirm_gesture (log c)) /\
                       length (filter (issue_of "/api/fetch-emails") (log c)) =
                         length (filter (resolution_of "/api/save-start-date") (log c))))
      with (ls := ls) (c0 := init); [|exact inv_init|split; reflexivity|exact R].
    clear. intros c l c' _ [A B] T.
    destruct T; cbn [log]; unfold confirm_log; rewrite ?filter_app, ?length_app, ?A, ?B;
      cbn; split; lia.
Qed.

Lemma X2_no_request_twice_witness :
  run init [UI Confirm; UI Confirm; Net 1 (Resolved (mkResponse 503))] =
    Some (after [UI Confirm; UI Confirm; Net 1 (Resolved (mkResponse 503))]) /\
  length (filter (issue_of "/api/save-start-date")
            (log (after [UI Confirm; UI Confirm; Net 1 (Resolved (mkResponse 503))]))) = 2 /\
  length (filter (issued_to "/api/save-start-date" 1)
            (log (after [UI Confirm; UI Confirm; Net 1 (Resolved (mkResponse 503))]))) <= 1.
Proof.
  split; [reflexivity|]. split; [reflexivity|].
  apply (proj1 (X2_no_request_twice
                  [UI Confirm; UI Confirm; Net 1 (Resolved (mkResponse 503))]
                  (after [UI Confirm; UI Confirm; Net 1 (Resolved (mkResponse 503))])
                  eq_refl) 1).
Defined.

(** X3: an invocation has at most one call in flight; a call in flight has
    been issued and has not settled, and while it is in flight the modal flag
    is already false and the dashboard is rendered. *)
Theorem X3_one_call_in_flight (ls : list Label) (c : Config) :
  run init ls = Some c ->
  (forall id, length (tasks_of id (pending c)) <= 1) /\
  (forall t,
     In t (pending c) ->
     In (Issued (t_id t) (t_req t)) (log c) /\
     (forall o, ~ In (Settled (t_id t) (t_req t) o) (log c)) /\
     showModal (ui c) = false /\
     option_map title (dashboard (render (ui c))) = Some "Dashboard").
Proof.
  intros R. pose proof (reachable_inv _ _ R) as I. split.
  - intros id. destruct (inv_each _ I id) as (st & _ & P & _). rewrite P.
    destruct st as [d|sel ph]; [|destruct ph]; cbn; lia.
  - intros t T. remember (t_id t) as id eqn:E.
    destruct (inv_each _ I id) as (st & L & P & _).
    apply in_tasks_of in T. rewrite <- E, P in T.
    assert (S : showModal (ui c) = false).
    { destruct (showModal (ui c)) eqn:M; [|reflexivity].
      destruct (open_modal_invocations c id I M) as (st' & _ & P' & _).
      rewrite P' in P. rewrite <- P in T. contradiction T. }
    destruct st as [d|sel ph]; [contradiction T|].
    destruct ph; cbn in T; try contradiction T; destruct T as [<-|[]]; cbn [t_req];
      (split; [inv_has L|]); (split; [intros o H; in_inv H L|]);
      (split; [exact S|]); unfold render; rewrite S; reflexivity.
Qed.

Lemma X3_one_call_in_flight_witness :
  run init [UI Confirm; UI Confirm] = Some (after [UI Confirm; UI Confirm]) /\
  length (pending (after [UI Confirm; UI Confirm])) = 2 /\
  length (tasks_of 0 (pending (after [UI Confirm; UI Confirm]))) <= 1.
Proof.
  split; [reflexivity|]. split; [reflexivity|].
  apply (proj1 (X3_one_call_in_flight [UI Confirm; UI Confirm]
                  (after [UI Confirm; UI Confirm]) eq_refl) 0).
Defined.

(** ** What the state and the view tell *)

(** X4: in every session, while the modal flag is true no date is confirmed,
    no call is pending and no request has been issued; and a date is confirmed
    only in a session in which a confirm gesture issued the persist-date
    request for that very date. *)
Theorem X4_state_invariant (ls : list Label) (c : Config) :
  run init ls = Some c ->
  (showModal (ui c) = true ->
   startDate (ui c) = None /\ pending c = [] /\ forall i r, ~ In (Issued i r) (log c)) /\
  (forall d,
     startDate (ui c) = Some d ->
     exists i, In (Gestured i Confirm) (log c) /\
               In (Issued i (saveStartDateRequest (Some d))) (log c)).
Proof.
  intros R. pose proof (reachable_inv _ _ R) as I. split.
  - intros M. split; [|split].
    + destruct (startDate (ui c)) as [d|] eqn:SD; [|reflexivity].
      destruct (inv_start _ I d SD) as (i & X).
      destruct (open_modal_invocations c i I M) as (st & L & _ & _ & NS).
      elim (NS (Some d)). rewrite <- L. apply (in_events_of _ _ X).
    + apply tasks_of_nil. intros id.
      destruct (open_modal_invocations c id I M) as (st & _ & P & _). exact P.
    + intros i r X. destruct (open_modal_invocations c i I M) as (st & L & _ & NI & _).
      apply (NI r). rewrite <- L. apply (in_events_of _ _ X).
  - intros d SD. destruct (inv_start _ I d SD) as (i & X). exists i.
    destruct (inv_each _ I i) as (st & L & _ & _).
    destruct st as [d'|sel ph]; [in_inv X L|].
    destruct ph; in_inv X L; injection X as <-; split; inv_has L.
Qed.

Lemma X4_state_invariant_witness :
  run init [UI (Change (Some (mkDate 2023 11 2))); UI Confirm; UI (Change None)] =
    Some (after [UI (Change (Some (mkDate 2023 11 2))); UI Confirm; UI (Change None)]) /\
  startDate (ui (after [UI (Change (Some (mkDate 2023 11 2))); UI Confirm; UI (Change None)])) =
    Some (mkDate 2023 11 2) /\
  selectedDate (ui (after [UI (Change (Some (mkDate 2023 11 2))); UI Confirm;
                           UI (Change None)])) = None /\
  exists i,
    In (Gestured i Confirm)
       (log (after [UI (Change (Some (mkDate 2023 11 2))); UI Confirm; UI (Change None)])) /\
    In (Issued i (saveStartDateRequest (Some (mkDate 2023 11 2))))
       (log (after [UI (Change (Some (mkDate 2023 11 2))); UI Confirm; UI (Change None)])).
Proof.
  split; [reflexivity|]. split; [reflexivity|]. split; [reflexivity|].
  apply (proj2 (X4_state_invariant
                  [UI (Change (Some (mkDate 2023 11 2))); UI Confirm; UI (Change None)]
                  (after [UI (Change (Some (mkDate 2023 11 2))); UI Confirm; UI (Change None)])
                  eq_refl) (mkDate 2023 11 2) eq_refl).
Defined.

(** X5: the date picker is a controlled input. After any sequence of changes,
    with no other gesture, the dialog is still on screen and its picker shows
    the last value it handed to its callback (its initial empty value when
    there was no change); no date is confirmed, the dashboard is not rendered
    and nothing was sent. *)
Theorem X5_picker_shows_last_change (ds : list (option CalendarDate)) :
  exists c dv,
    run init (map (fun d => UI (Change d)) ds) = Some c /\
    mounted c = true /\
    show (render (ui c)) = true /\
    dialog (render (ui c)) = dv /\
    pickerValue dv = last ds None /\
    onClick dv = handleConfirm (last ds None) /\
    dashboard (render (ui c)) = None /\
    startDate (ui c) = None /\
    (forall i r, ~ In (Issued i r) (log c)) /\
    (forall i m h, ~ In (Navigated i m h) (log c)).
Proof.
  exists (config_of ds AwaitingInput). eexists.
  split; [exact (run_changes [] ds)|].
  split; [reflexivity|]. split; [reflexivity|]. split; [reflexivity|].
  repeat split.
  - intros i r H. in_log H.
  - intros i m h H. in_log H.
Qed.

(** X6: every request issued to the persist-date endpoint belongs to a
    confirm gesture and carries the date that very gesture recorded as the
    confirmed one; its body is the empty object exactly when that date is
    null. *)
Theorem X6_persist_request_carries_recorded_date (ls : list Label) (c : Config) (id : nat) (r : Request) :
  run init ls = Some c ->
  In (Issued id r) (log c) ->
  url r = "/api/save-start-date" ->
  exists sel,
    r = saveStartDateRequest sel /\
    In (Gestured id Confirm) (log c) /\
    In (Updated id (SetStartDate sel)) (log c) /\
    (body r = "{}" <-> sel = None).
Proof.
  intros R H U. pose proof (reachable_inv _ _ R) as I.
  assert (B : forall sel, body (saveStartDateRequest sel) = "{}" <-> sel = None).
  { intros [d|]; split; intros E; try reflexivity; discriminate E. }
  destruct (inv_each _ I id) as (st & L & _ & _).
  destruct st as [d|sel ph]; [in_inv H L|].
  destruct ph; in_inv H L; injection H as <-; try discriminate U;
    exists sel; (split; [reflexivity|]); (split; [inv_has L|]); (split; [inv_has L|]);
    apply B.
Qed.

Lemma X6_persist_request_carries_recorded_date_witness :
  run init [UI Confirm; UI (Change None); UI Confirm] =
    Some (after [UI Confirm; UI (Change None); UI Confirm]) /\
  In (Issued 2 (saveStartDateRequest None))
     (log (after [UI Confirm; UI (Change None); UI Confirm])) /\
  exists sel,
    saveStartDateRequest None = saveStartDateRequest sel /\
    In (Updated 2 (SetStartDate sel)) (log (after [UI Confirm; UI (Change None); UI Confirm])).
Proof.
  split; [reflexivity|]. split; [simpl; auto 12|].
  destruct (X6_persist_request_carries_recorded_date
              [UI Confirm; UI (Change None); UI Confirm]
              (after [UI Confirm; UI (Change None); UI Confirm]) 2
              (saveStartDateRequest None) eq_refl) as (sel & E & _ & S & _).
  - simpl. auto 12.
  - reflexivity.
  - exists sel. split; [exact E | exact S].
Defined.

(** X7: the trace of a session that runs to completion. After any sequence of
    changes, a confirm gesture whose two calls resolve, with any responses,
    performs exactly these effects in this order: it sets the confirmed date,
    closes the modal, posts the date, waits for the response, posts the
    fetch-emails request, waits for the response, and replaces the route;
    nothing is left pending. *)
Theorem X7_complete_session_trace (ds : list (option CalendarDate)) (r1 r2 : Response) :
  exists c,
    run init (map (fun d => UI (Change d)) ds ++
              [UI Confirm; Net (length ds) (Resolved r1); Net (length ds) (Resolved r2)]) =
      Some c /\
    log c =
      changes_log 0 ds ++
      [Gestured (length ds) Confirm;
       Updated (length ds) (SetStartDate (last ds None));
       Updated (length ds) (SetShowModal false);
       Issued (length ds) (saveStartDateRequest (last ds None));
       Settled (length ds) (saveStartDateRequest (last ds None)) (Resolved r1);
       Issued (length ds) fetchEmailsRequest;
       Settled (length ds) fetchEmailsRequest (Resolved r2);
       Navigated (length ds) Replace "/processing"] /\
    ui c = {| showModal := false; startDate := last ds None; selectedDate := last ds None |} /\
    pending c = [].
Proof.
  exists (config_of ds (Completed r1 r2)).
  split; [exact (run_session ds (Completed r1 r2))|].
  split; [reflexivity|]. split; reflexivity.
Qed.

(** ** Rejections and HTTP statuses *)

(** X8: a rejected call is never handled. In every session, the rejection of
    a call changes nothing in the state or on the screen; the log gains the
    settlement and the unhandled rejection; and the invocation the call
    belonged to has ended: it has no call in flight and gets no further event,
    whatever happens next. *)
Theorem X8_rejection_is_silent_and_final (ls : list Label) (c c' : Config) (id : nat) :
  run init ls = Some c ->
  step c (Net id Rejected) = Some c' ->
  ui c' = ui c /\
  mounted c' = mounted c /\
  render (ui c') = render (ui c) /\
  (exists r, log c' = log c ++ [Settled id r Rejected; Unhandled id]) /\
  tasks_of id (pending c') = [] /\
  (forall ls' c'', run c' ls' = Some c'' ->
                   events_of id (log c'') = events_of id (log c')).
Proof.
  intros R S. pose proof (reachable_inv _ _ R) as I.
  pose proof (step_turn _ _ _ (inv_wf _ I) S) as T.
  pose proof (turn_inv _ _ _ I T) as I'.
  inversion T; subst. cbn [ui mounted log pending] in *.
  split; [reflexivity|]. split; [reflexivity|]. split; [reflexivity|].
  split; [eexists; reflexivity|].
  destruct (inv_each _ I id) as (st & L & P & N).
  destruct (take_spec _ _ _ _ H0) as (_ & _ & _ & TK). specialize (TK id).
  rewrite Nat.eqb_refl, P in TK.
  assert (E : tasks_of id rest = []).
  { destruct st as [d|sel ph]; [discriminate TK|].
    destruct ph; try discriminate TK; cbn [inv_pending phase_pending] in TK;
      apply cons_eq_inv in TK as [_ TK]; symmetry; exact TK. }
  split; [exact E|].
  intros ls' c'' R'.
  refine (proj1 (ended_stays id ls' _ c'' I' E _ R')).
  cbn [next]. apply (started id c st N). intros X. subst st. discriminate TK.
Qed.

Lemma X8_rejection_is_silent_and_final_witness :
  run init [UI (Change (Some (mkDate 2024 3 15))); UI Confirm] =
    Some (config_of [Some (mkDate 2024 3 15)] AwaitingSave) /\
  step (config_of [Some (mkDate 2024 3 15)] AwaitingSave) (Net 1 Rejected) =
    Some (config_of [Some (mkDate 2024 3 15)] SaveRejected) /\
  option_map summary
    (dashboard (render (ui (config_of [Some (mkDate 2024 3 15)] SaveRejected)))) =
    Some "Your job search start date: 2024-03-15".
Proof.
  split; [reflexivity|]. split; [reflexivity|].
  destruct (X8_rejection_is_silent_and_final
              [UI (Change (Some (mkDate 2024 3 15))); UI Confirm]
              (config_of [Some (mkDate 2024 3 15)] AwaitingSave)
              (config_of [Some (mkDate 2024 3 15)] SaveRejected) 1 eq_refl eq_refl)
    as (_ & _ & V & _).
  rewrite V. reflexivity.
Defined.

Lemma forget_label_inv (l l' : Label) :
  forget_label l' = forget_label l ->
  match l with
  | Net i (Resolved _) => exists r', l' = Net i (Resolved r')
  | _ => l' = l
  end.
Proof.
  destruct l as [g|i [r|]|], l' as [g'|i' [r'|]|]; cbn; intros H;
    try discriminate H; try (injection H as ->); try (injection H as -> ->);
    try reflexivity; eauto.
Qed.

Lemma same_but_responses_step (c c' c1 : Config) (l l' : Label) :
  Inv c -> same_but_responses c c' ->
  forget_label l' = forget_label l ->
  step c l = Some c1 ->
  exists c1', step c' l' = Some c1' /\ same_but_responses c1 c1'.
Proof.
  intros I (U & M & P & N & LG) F S.
  pose proof (step_turn _ _ _ (inv_wf _ I) S) as T.
  apply forget_label_inv in F.
  destruct c' as [u' m' p' lg' n']. cbn in U, M, P, N, LG. subst u' m' p' n'.
  destruct T; try (destruct F as (r' & ->)); try subst l'.
  - eexists. split; [apply turn_step, T_change; assumption|].
    repeat split. cbn [log]. rewrite !map_app, LG. reflexivity.
  - eexists. split; [apply turn_step, T_close; assumption|].
    repeat split. cbn [log]. rewrite !map_app, LG. reflexivity.
  - eexists. split; [apply turn_step, T_confirm; assumption|].
    repeat split. cbn [log]. rewrite !map_app, LG. reflexivity.
  - eexists. split; [apply turn_step; apply (T_save_resolved _ i sel r' rest); assumption|].
    repeat split. cbn [log]. rewrite !map_app, LG. reflexivity.
  - eexists. split; [apply turn_step; apply (T_emails_resolved _ i r' rest); assumption|].
    repeat split. cbn [log]. rewrite !map_app, LG. reflexivity.
  - eexists. split; [apply turn_step; apply (T_rejected _ i t rest); assumption|].
    repeat split. cbn [log]. rewrite !map_app, LG. reflexivity.
  - eexists. split; [apply turn_step, T_leave; assumption|].
    repeat split. exact LG.
Qed.

Lemma same_but_responses_run (ls ls' : list Label) (c0 c0' c : Config) :
  Inv c0 -> same_but_responses c0 c0' ->
  map forget_label ls' = map forget_label ls ->
  run c0 ls = Some c ->
  exists c', run c0' ls' = Some c' /\ same_but_responses c c'.
Proof.
  revert ls' c0 c0'. induction ls as [|l ls IH]; intros ls' c0 c0' I B F R.
  - destruct ls'; [|discriminate F]. injection R as <-. exists c0'. split; [reflexivity | exact B].
  - destruct ls' as [|l' ls']; [discriminate F|]. cbn [map] in F. injection F as Fl Fls.
    cbn [run] in R |- *. destruct (step c0 l) as [c1|] eqn:S; [|discriminate R].
    destruct (same_but_responses_step _ _ _ _ _ I B Fl S) as (c1' & S' & B1).
    rewrite S'.
    apply (IH ls' c1 c1' (turn_inv _ _ _ I (step_turn _ _ _ (inv_wf _ I) S)) B1 Fls R).
Qed.

(** X9: the HTTP status of a response is never looked at. Two sessions that
    differ only in the responses their calls resolve with go through the same
    states and views, leave the same call pending, and perform the same
    effects in the same order: their logs differ only in the recorded
    responses. *)
Theorem X9_status_is_ignored (ls ls' : list Label) (c : Config) :
  run init ls = Some c ->
  map forget_label ls' = map forget_label ls ->
  exists c',
    run init ls' = Some c' /\
    ui c' = ui c /\
    render (ui c') = render (ui c) /\
    pending c' = pending c /\
    map forget_event (log c') = map forget_event (log c).
Proof.
  intros R E.
  destruct (same_but_responses_run ls ls' init init c inv_init) as (c' & R' & U & _ & P & _ & L);
    [repeat split | exact E | exact R |].
  exists c'. split; [exact R'|]. split; [exact U|]. split; [rewrite U; reflexivity|].
  split; [exact P | exact L].
Qed.

Lemma X9_status_is_ignored_witness :
  run init [UI Confirm; Net 0 (Resolved (mkResponse 200)); Net 0 (Resolved (mkResponse 200))] =
    Some (config_of [] (Completed (mkResponse 200) (mkResponse 200))) /\
  exists c',
    run init [UI Confirm; Net 0 (Resolved (mkResponse 500)); Net 0 (Resolved (mkResponse 404))] =
      Some c' /\
    ui c' = ui (config_of [] (Completed (mkResponse 200) (mkResponse 200))) /\
    render (ui c') = render (ui (config_of [] (Completed (mkResponse 200) (mkResponse 200)))) /\
    pending c' = pending (config_of [] (Completed (mkResponse 200) (mkResponse 200))) /\
    map forget_event (log c') =
    map forget_event (log (config_of [] (Completed (mkResponse 200) (mkResponse 200)))).
Proof.
  split; [reflexivity|].
  apply (X9_status_is_ignored
           [UI Confirm; Net 0 (Resolved (mkResponse 200)); Net 0 (Resolved (mkResponse 200))]
           [UI Confirm; Net 0 (Resolved (mkResponse 500)); Net 0 (Resolved (mkResponse 404))]);
    reflexivity.
Defined.
